(** * Blight-ticket compliance: the data-preparation pipeline

    A shallow embedding of the notebook [blight_ticket.ipynb]: the cells that
    load, filter, prune, concatenate, encode and split the two tables, and
    the cell that formats the predictions.  Tables are pandas data frames:
    a row index and a finite map from column labels to columns.  Cells
    are exact numbers and texts; the one place where pandas changes the
    type of a column, the concatenation, is embedded twice, without its
    casts ([concat], [prepare]) and with them ([concat_casting],
    [prepare_casting]).  The
    classifier and its grid search are an external collaborator and appear
    only through what the notebook passes to it and reads back from it. *)

From Stdlib Require Import QArith Qcanon.
From stdpp Require Import base option list sorting numbers strings gmap fin_maps.

Set Default Proof Using "Type".
#[local] Set Warnings "-clear-no-such-hyp".

(** ** Cells of a table *)

(** A cell read from a delimited file is missing ([NaN]), a number or a
    text.  A non-missing float is modelled by the rational it denotes, so
    that [Num] equality is Python's [==] on numbers ([1 == 1.0]). *)
Inductive value : Type :=
  | NaN
  | Num (q : Qc)
  | Str (s : string).

#[global] Instance value_eq_dec : EqDecision value.
Proof. solve_decision. Defined.

#[global] Instance value_inhabited : Inhabited value := populate NaN.

(** [pd.isnull] *)
Definition isnull (v : value) : bool :=
  match v with NaN => true | _ => false end.

(** An integer seen as a cell (category codes, row positions). *)
Definition Int (z : Z) : value := Num (Qc_of_Z z).

(** ** Exceptions *)

Inductive exn : Type :=
  | KeyError (label : string)
  | ValueError
  | AttributeError.

Inductive result (A : Type) : Type :=
  | Ok (a : A)
  | Raise (e : exn).
Arguments Ok {A} a.
Arguments Raise {A} e.

#[global] Instance result_ret : MRet result := λ A a, Ok a.
#[global] Instance result_bind : MBind result := λ A B f m,
  match m with Ok a => f a | Raise e => Raise e end.

(** ** The order used to sort categories

    [factorize(values, sort=True)] sorts the distinct non-missing values:
    numbers by value, texts by code point, and in a column that mixes both
    the numbers come before the texts. *)
Definition value_leb (a b : value) : bool :=
  match a, b with
  | NaN, _ => true
  | _, NaN => false
  | Num x, Num y => bool_decide (x ≤ y)%Qc
  | Num _, Str _ => true
  | Str _, Num _ => false
  | Str s, Str t => String.leb s t
  end.

Definition value_le (a b : value) : Prop := value_leb a b = true.

#[global] Instance value_le_dec : RelDecision value_le.
Proof. intros a b. unfold value_le. apply _. Defined.

Definition value_lt (a b : value) : Prop := value_le a b ∧ a ≠ b.

(** ** Categoricals *)

(** Distinct non-missing values in order of first appearance (the hash
    table pass of [factorize]). *)
Definition uniques (vs : list value) : list value :=
  foldl (λ seen v, if isnull v then seen
                   else if decide (v ∈ seen) then seen else seen ++ [v])
        [] vs.

(** Position of a value in a list. *)
Fixpoint index_of (v : value) (l : list value) : option nat :=
  match l with
  | [] => None
  | x :: l' => if decide (x = v) then Some 0 else S <$> index_of v l'
  end.

(** The code of a value against given categories; [-1] is the sentinel of
    a missing value (and of a value that is not a category). *)
Definition code_of (cats : list value) (v : value) : Z :=
  if isnull v then (-1)%Z
  else match index_of v cats with
       | Some i => Z.of_nat i
       | None => (-1)%Z
       end.

Record Categorical : Type := {
  categories : list value;
  codes : list Z
}.

(** [Categorical(values)]: categories are the sorted distinct values,
    codes are the positions in the categories. *)
Definition factorize (vs : list value) : Categorical :=
  let cats := merge_sort value_le (uniques vs) in
  {| categories := cats; codes := code_of cats <$> vs |}.

(** Decoding a code: [categories[code]], missing for the sentinel. *)
Definition decode (c : Categorical) (z : Z) : value :=
  if decide (z < 0)%Z then NaN
  else default NaN (categories c !! Z.to_nat z).

(** The column of the specification's example. *)
Definition A_B_A : list value := [Str "A"; Str "B"; Str "A"].

(** ** Series and data frames *)

Record Series : Type := {
  s_index : list value;
  s_values : list value
}.

(** A frame over columns of type [C]: the row labels and the columns by
    label.  Column order is not modelled (it differs between pandas
    versions and no cell of the notebook depends on it). *)
Record Frame (C : Type) : Type := {
  index : list value;
  columns : gmap string C
}.
Arguments index {C} _.
Arguments columns {C} _.

(** [len(df)] *)
Definition len {C} (df : Frame C) : nat := length (index df).

(** A frame as [read_csv] builds it: every column has one cell per row. *)
Definition wf (df : Frame (list value)) : Prop :=
  map_Forall (λ _ col, length col = len df) (columns df).

(** [df[label]] *)
Definition getitem {C} (df : Frame C) (label : string) : result C :=
  match columns df !! label with
  | Some col => Ok col
  | None => Raise (KeyError label)
  end.

Definition getitem_series (df : Frame (list value)) (label : string)
  : result Series :=
  col ← getitem df label;
  Ok {| s_index := index df; s_values := col |}.

(** [df[label] = col] *)
Definition setitem {C} (df : Frame C) (label : string) (col : C) : Frame C :=
  {| index := index df; columns := <[label := col]> (columns df) |}.

(** *** Filter: [train[(train['compliance'] == 1.0) | (train['compliance'] == 0.0)]] *)

(** [series == x] for a float [x]: elementwise, false on a missing cell and
    on a text. *)
Definition eq_scalar (s : Series) (x : Qc) : list bool :=
  (λ v, bool_decide (v = Num x)) <$> s_values s.

(** [a | b] *)
Definition mask_or (a b : list bool) : list bool := zip_with orb a b.

(** Rows of a list selected by a boolean mask. *)
Fixpoint select {A} (mask : list bool) (l : list A) : list A :=
  match mask, l with
  | b :: mask', x :: l' => if b then x :: select mask' l' else select mask' l'
  | _, _ => []
  end.

(** [df[mask]] *)
Definition getitem_mask (df : Frame (list value)) (mask : list bool)
  : Frame (list value) :=
  {| index := select mask (index df); columns := select mask <$> columns df |}.

Definition compliance_filter (train : Frame (list value))
  : result (Frame (list value)) :=
  c1 ← getitem_series train "compliance";
  c0 ← getitem_series train "compliance";
  Ok (getitem_mask train (mask_or (eq_scalar c1 1%Qc) (eq_scalar c0 0%Qc))).

(** *** Column pruner: [df.drop(labels, axis=1, inplace=True)] *)

(** The first label that is not a column, if any.  (The key error of
    pandas lists every label that is not a column; the properties below
    only use that the label raised is one of them.) *)
Definition missing_label {C} (labels : list string) (df : Frame C)
  : option string :=
  list_find (λ l, columns df !! l = None) labels ≫= λ p, Some p.2.

Definition drop {C} (labels : list string) (df : Frame C) : result (Frame C) :=
  match missing_label labels df with
  | Some l => Raise (KeyError l)
  | None => Ok {| index := index df;
                  columns := foldr delete (columns df) labels |}
  end.

Definition train_drop : list string :=
  ["payment_amount"; "payment_date"; "payment_status"; "balance_due";
   "collection_status"; "grafitti_status"; "compliance_detail"; "compliance"].

Definition common_drop : list string :=
  ["clean_up_cost"; "city"; "grafitti_status"; "discount_amount";
   "violation_street_number"; "violation_description"; "ticket_issued_date";
   "hearing_date"; "state"; "zip_code"; "non_us_str_code"; "country";
   "violator_name"; "violator_name"; "violation_zip_code";
   "mailing_address_str_number"; "mailing_address_str_name"].

(** *** [pd.concat([a, b])] *)

(** Rows of [a] then rows of [b]; the columns are the union of both, a
    column that one table lacks is missing ([NaN]) on that table's rows.
    Cells are the numbers they denote.  [pd.concat] also gives every column
    one type, and casts a column of whole numbers to float64 when the
    other table's column is float or has to be filled with [NaN]: a whole
    number beyond 2^53 is then rounded.  [concat] is the concatenation
    without these casts and [concat_casting], further down, the one with
    them; the two agree on tables that are [float_safe], and what is
    stated about the value of a cell after the concatenation is stated
    for such tables or columns. *)
Definition concat_column (na nb : nat) (ca cb : option (list value))
  : option (list value) :=
  match ca, cb with
  | Some x, Some y => Some (x ++ y)
  | Some x, None => Some (x ++ replicate nb NaN)
  | None, Some y => Some (replicate na NaN ++ y)
  | None, None => None
  end.

Definition concat (a b : Frame (list value)) : Frame (list value) :=
  {| index := index a ++ index b;
     columns := merge (concat_column (len a) (len b)) (columns a) (columns b) |}.

(** *** [df.set_index(label)] *)
Definition set_index (label : string) (df : Frame (list value))
  : result (Frame (list value)) :=
  col ← getitem df label;
  Ok {| index := col; columns := delete label (columns df) |}.

(** *** Categorical encoder *)

(** A column of the frame being encoded: plain cells, or a categorical. *)
Inductive column : Type :=
  | Values (vs : list value)
  | Category (c : Categorical).

Definition to_columns (df : Frame (list value)) : Frame column :=
  {| index := index df; columns := Values <$> columns df |}.

(** [series.astype('category')] *)
Definition astype_category (x : column) : column :=
  match x with
  | Values vs => Category (factorize vs)
  | Category c => Category c
  end.

(** [series.cat.codes]; the accessor exists on categoricals only. *)
Definition cat_codes (x : column) : result column :=
  match x with
  | Category c => Ok (Values (Int <$> codes c))
  | Values _ => Raise AttributeError
  end.

Definition cat_columns : list string :=
  ["agency_name"; "inspector_name"; "violation_street_name";
   "violation_code"; "disposition"].

(** [for col in cols: df[col] = df[col].astype('category')] *)
Fixpoint astype_loop (cols : list string) (df : Frame column)
  : result (Frame column) :=
  match cols with
  | [] => Ok df
  | col :: rest =>
      x ← getitem df col;
      astype_loop rest (setitem df col (astype_category x))
  end.

(** [df[cols].apply(lambda x: x.cat.codes)] *)
Fixpoint apply_codes (cols : list string) (df : Frame column)
  : result (list (string * column)) :=
  match cols with
  | [] => Ok []
  | col :: rest =>
      x ← getitem df col;
      y ← cat_codes x;
      ys ← apply_codes rest df;
      Ok ((col, y) :: ys)
  end.

(** [df[cols] = new]: the new columns carry the index of [df], so they
    are stored as they are. *)
Definition setitem_columns (df : Frame column) (new : list (string * column))
  : Frame column :=
  foldl (λ d kc, setitem d kc.1 kc.2) df new.

Definition encode (cols : list string) (df : Frame column)
  : result (Frame column) :=
  df1 ← astype_loop cols df;
  new ← apply_codes cols df1;
  Ok (setitem_columns df1 new).

(** *** Splitter: [df.iloc[start:stop, :]] *)

Definition slice {A} (start : nat) (stop : option nat) (l : list A) : list A :=
  match stop with
  | Some e => take (e - start) (List.skipn start l)
  | None => List.skipn start l
  end.

Definition col_slice (start : nat) (stop : option nat) (x : column) : column :=
  match x with
  | Values vs => Values (slice start stop vs)
  | Category c =>
      Category {| categories := categories c;
                  codes := slice start stop (codes c) |}
  end.

Definition iloc (start : nat) (stop : option nat) (df : Frame column)
  : Frame column :=
  {| index := slice start stop (index df);
     columns := col_slice start stop <$> columns df |}.

(** *** The cells up to the split, in order *)

(** The second cell only displays [len(df[c].unique())] for five columns;
    it still raises when one of them is absent. *)
Definition display_uniques (df : Frame (list value)) : result unit :=
  _ ← getitem df "agency_name";
  _ ← getitem df "inspector_name";
  _ ← getitem df "violation_code";
  _ ← getitem df "disposition";
  _ ← getitem df "clean_up_cost";
  Ok ().

Record Prepared : Type := {
  X_train : Frame column;
  y_train : Series;
  X_test : Frame column
}.

Definition prepare (train_csv test_csv : Frame (list value)) : result Prepared :=
  train ← compliance_filter train_csv;
  train_label ← getitem_series train "compliance";
  train ← drop train_drop train;
  let df := concat train test_csv in
  _ ← display_uniques df;
  df ← drop common_drop df;
  df ← set_index "ticket_id" df;
  df ← encode cat_columns (to_columns df);
  Ok {| X_train := iloc 0 (Some (len train)) df;
        y_train := train_label;
        X_test := iloc (len train) None df |}.

(** *** Predictor/formatter: [pd.Series(result[:,1], index=X_test.index)] *)

(** [pd.Series(data, index=idx)]: the lengths must agree. *)
Definition make_series {P} (data : list P) (idx : list value)
  : result (list (value * P)) :=
  if decide (length data = length idx) then Ok (zip idx data)
  else Raise ValueError.

(** [proba] is what [predict_proba] returned: one pair of class
    probabilities per row it was given. *)
Definition format_answer {P} (proba : list (P * P)) (X : Frame column)
  : result (list (value * P)) :=
  make_series (snd <$> proba) (index X).

(** *** Second cell: [len(df[c].unique())] *)

(** [series.unique()]: the distinct cells in order of first appearance; a
    missing cell counts as one value. *)
Definition unique (vs : list value) : list value :=
  foldl (λ seen v, if decide (v ∈ seen) then seen else seen ++ [v]) [] vs.

Definition unique_count (df : Frame (list value)) (label : string)
  : result nat :=
  col ← getitem df label;
  Ok (length (unique col)).

(** The tuple the second cell displays. *)
Definition unique_counts (df : Frame (list value))
  : result (nat * nat * nat * nat * nat) :=
  n1 ← unique_count df "agency_name";
  n2 ← unique_count df "inspector_name";
  n3 ← unique_count df "violation_code";
  n4 ← unique_count df "disposition";
  n5 ← unique_count df "clean_up_cost";
  Ok (n1, n2, n3, n4, n5).

(** ** Views used to state the properties *)

(** Positions of the rows a mask keeps. *)
Definition positions (mask : list bool) : list nat :=
  select mask (seq 0 (length mask)).

(** A row of a plain frame: its label and its cells by column. *)
Definition row_at (df : Frame (list value)) (i : nat)
  : value * gmap string value :=
  (index df !!! i, (λ col, col !!! i) <$> columns df).

Definition rows (df : Frame (list value)) : list (value * gmap string value) :=
  row_at df <$> seq 0 (len df).

(** The cell of a row under a label; missing when the table has no such
    column (what [concat] fills in for it). *)
Definition cell (k : string) (r : value * gmap string value) : value :=
  default NaN (r.2 !! k).

(** The outcome of a row is one of the two defined classes. *)
Definition outcome_defined (r : value * gmap string value) : bool :=
  bool_decide (cell "compliance" r = Num 1%Qc)
  || bool_decide (cell "compliance" r = Num 0%Qc).

(** The column of a frame under a label, all missing when absent. *)
Definition column_or_nan (df : Frame (list value)) (k : string) : list value :=
  default (replicate (len df) NaN) (columns df !! k).

(** What the two passes of the encoder make of one column. *)
Definition encoded (x : column) : column :=
  match astype_category x with
  | Category c => Values (Int <$> codes c)
  | Values vs => Values vs
  end.

(** The training rows the filter keeps. *)
Definition kept_rows (a : Frame (list value)) : list (value * gmap string value) :=
  filter (λ r, outcome_defined r = true) (rows a).

(** The cells of the kept training rows under a label, as they enter the
    unified table: all missing under a label of [train_drop]. *)
Definition train_part (a : Frame (list value)) (k : string) : list value :=
  if decide (k ∈ train_drop) then replicate (length (kept_rows a)) NaN
  else cell k <$> kept_rows a.

(** The cells of the evaluation rows under a label. *)
Definition test_part (b : Frame (list value)) (k : string) : list value :=
  column_or_nan b k.

(** The labels of the feature tables: what is left of the columns of either
    file after the two prunings and the re-indexing. *)
Definition feature_label (a b : Frame (list value)) (k : string) : Prop :=
  k ≠ "ticket_id" ∧ (k ∉ common_drop)
  ∧ ((is_Some (columns a !! k) ∧ k ∉ train_drop) ∨ is_Some (columns b !! k)).

#[global] Instance feature_label_dec a b k : Decision (feature_label a b k).
Proof. unfold feature_label. apply _. Defined.

(** The vocabulary of a column: the categories of the unified column. *)
Definition vocabulary (a b : Frame (list value)) (k : string) : list value :=
  categories (factorize (train_part a k ++ test_part b k)).

(** What the encoder does to a cell of column [k]. *)
Definition feature_code (a b : Frame (list value)) (k : string) (v : value)
  : value :=
  if decide (k ∈ cat_columns) then Int (code_of (vocabulary a b k) v) else v.


(** The cells of a column of the frame being encoded. *)
Definition col_values (x : column) : list value :=
  match x with
  | Values vs => vs
  | Category c => decode c <$> codes c
  end.

Definition to_values (df : Frame column) : Frame (list value) :=
  {| index := index df; columns := col_values <$> columns df |}.

(** The columns the notebook names: those it reads or drops from the
    training file, and those it reads or drops from the unified table
    (there a column of either file will do, unless the first pruning
    removed it from the training file). *)
Definition schema (a b : Frame (list value)) : Prop :=
  (∀ l, l ∈ "compliance" :: train_drop → is_Some (columns a !! l))
  ∧ (∀ l, l ∈ common_drop ++ "ticket_id" :: cat_columns →
          (is_Some (columns a !! l) ∧ l ∉ train_drop)
          ∨ is_Some (columns b !! l)).

(** ** The casts of the concatenation *)

(** A cell that a cast to float64 leaves as it is: a missing cell, a text,
    a number with a fractional part (a float64 already) or a whole number
    of absolute value at most 2^53. *)
Definition float_safe_cell (v : value) : bool :=
  match v with
  | Num q => negb (Pos.eqb (Qden q) 1) || (Z.abs (Qnum q) <=? 2 ^ 53)%Z
  | _ => true
  end.

(** A table whose row labels and cells are all such cells: whichever
    columns [pd.concat] casts to float64 to give the two tables one type
    per column, it changes no cell of this table. *)
Definition float_safe (df : Frame (list value)) : Prop :=
  Forall (λ v, float_safe_cell v = true) (index df)
  ∧ map_Forall (λ _ col, Forall (λ v, float_safe_cell v = true) col)
               (columns df).

(** The same for one column of a table (a column the table lacks counts
    as missing cells): [pd.concat] gives each column its type on its own,
    so the cells of the other columns do not matter. *)
Definition float_safe_column (df : Frame (list value)) (k : string) : Prop :=
  Forall (λ v, float_safe_cell v = true) (column_or_nan df k).

(** The cast itself, on a whole number: the nearest float64, ties to the
    even mantissa; a float64 has 53 bits of mantissa. *)
Definition float64_of_Z (n : Z) : Z :=
  let m := Z.abs n in
  let e := (Z.log2 m - 52)%Z in
  if (e <=? 0)%Z then n
  else
    let q := Z.shiftr m e in
    let r := Z.land m (Z.ones e) in
    let half := Z.shiftl 1 (e - 1) in
    let q' := if (half <? r)%Z || ((r =? half)%Z && Z.odd q)
              then (q + 1)%Z else q in
    (Z.sgn n * Z.shiftl q' e)%Z.

Definition to_float64 (v : value) : value :=
  match v with
  | Num q => if Pos.eqb (Qden q) 1 then Int (float64_of_Z (Qnum q)) else v
  | _ => v
  end.

Definition cast_if (c : bool) (col : list value) : list value :=
  if c then to_float64 <$> col else col.

(** A table after the cast of some of its columns, and maybe of its row
    labels. *)
Definition cast_frame (cast_index : bool) (casts : string → bool)
    (df : Frame (list value)) : Frame (list value) :=
  {| index := cast_if cast_index (index df);
     columns := map_imap (λ k col, Some (cast_if (casts k) col))
                         (columns df) |}.

(** [pd.concat([a, b])] with its casts.  Which columns it casts (and
    whether it casts the row labels) follows from the types the columns
    got when the files were read, which the cells do not record; it is
    left open, and what is proved holds whichever they are. *)
Definition concat_casting (cast_index : bool) (casts : string → bool)
    (a b : Frame (list value)) : Frame (list value) :=
  cast_frame cast_index casts (concat a b).

(** The cells up to the split, with the casts of the concatenation. *)
Definition prepare_casting (cast_index : bool) (casts : string → bool)
    (train_csv test_csv : Frame (list value)) : result Prepared :=
  train ← compliance_filter train_csv;
  train_label ← getitem_series train "compliance";
  train ← drop train_drop train;
  let df := concat_casting cast_index casts train test_csv in
  _ ← display_uniques df;
  df ← drop common_drop df;
  df ← set_index "ticket_id" df;
  df ← encode cat_columns (to_columns df);
  Ok {| X_train := iloc 0 (Some (len train)) df;
        y_train := train_label;
        X_test := iloc (len train) None df |}.

(** ** A small scenario

    Six training rows, two of them without a defined outcome, and two
    evaluation rows. *)

Definition frame_of (idx : list value) (cols : list (string * list value))
  : Frame (list value) :=
  {| index := idx; columns := list_to_map cols |}.

(** Columns with no cell filled in, one per label. *)
Definition blank (n : nat) (labels : list string) : list (string * list value) :=
  (λ l, (l, replicate n NaN)) <$> labels.

Definition ex_train : Frame (list value) :=
  frame_of [Int 0; Int 1; Int 2; Int 3; Int 4; Int 5]
    ([("ticket_id", [Int 22056; Int 27586; Int 22062; Int 22084; Int 22093; Int 22046]);
      ("compliance", [Num 0%Qc; NaN; Num 1%Qc; Num 1%Qc; NaN; Num 0%Qc]);
      ("agency_name", [Str "B"; Str "A"; Str "A"; NaN; Str "C"; Str "B"]);
      ("inspector_name", [Str "Sims"; Str "Williams"; Str "Sims"; Str "Sims";
                          Str "Williams"; Str "Lusk"]);
      ("violation_street_name", [Str "TYLER"; Str "CENTRAL"; Str "TYLER";
                                 Str "RUNYON"; Str "CENTRAL"; Str "TYLER"]);
      ("violation_code", [Str "9-1-36(a)"; Str "61-63.0600"; Str "9-1-36(a)";
                          Str "61-63.0500"; Str "61-63.0100"; Int 22]);
      ("disposition", [Str "Responsible by Default"; Str "Not responsible";
                       Str "Responsible by Default";
                       Str "Responsible by Determination";
                       Str "Not responsible"; Str "Responsible by Default"]);
      ("fine_amount", [Int 250; Int 750; Int 250; Int 750; Int 100; Int 100])]
     ++ blank 6 ["payment_amount"; "payment_date"; "payment_status";
                 "balance_due"; "collection_status"; "compliance_detail"]
     ++ blank 6 common_drop).

Definition ex_test : Frame (list value) :=
  frame_of [Int 0; Int 1; Int 2]
    ([("ticket_id", [Int 285362; Int 285361; Int 285338]);
      ("agency_name", [Str "A"; Str "D"; NaN]);
      ("inspector_name", [Str "Lusk"; Str "Zizi"; Str "Sims"]);
      ("violation_street_name", [Str "RUNYON"; Str "MINOCK"; Str "TYLER"]);
      ("violation_code", [Int 22; Str "9-1-36(a)"; Str "22-2-88"]);
      ("disposition", [Str "Responsible by Default";
                       Str "Responsible by Admission";
                       Str "Responsible by Default"]);
      ("fine_amount", [Int 200; Int 1000; Int 100])]
     ++ blank 3 common_drop).

(** A one-column table holding "A", "B", "A". *)
Definition ex_ABA : Frame (list value) :=
  frame_of [Int 0; Int 1; Int 2] [("grade", A_B_A)].

(** The value of a run that raised nothing ([d] otherwise). *)
Definition unwrap {A} (d : A) (r : result A) : A :=
  match r with Ok x => x | Raise _ => d end.

(** The training table of the scenario after the filter and the first
    pruning, and the unified table at each later stage. *)
Definition ex_pruned : Frame (list value) :=
  unwrap ex_train (compliance_filter ex_train ≫= drop train_drop).

Definition ex_df1 : Frame (list value) :=
  unwrap ex_test (drop common_drop (concat ex_pruned ex_test)).

Definition ex_df : Frame (list value) :=
  unwrap ex_test (set_index "ticket_id" ex_df1).

Definition ex_enc : Frame column :=
  unwrap (to_columns ex_test) (encode cat_columns (to_columns ex_df)).

Definition ex_prepared : Prepared :=
  unwrap {| X_train := to_columns ex_train;
            y_train := {| s_index := []; s_values := [] |};
            X_test := to_columns ex_test |}
         (prepare ex_train ex_test).

(** Class probabilities for the three evaluation rows, in hundredths. *)
Definition ex_proba : list (nat * nat) := [(98, 2); (95, 5); (25, 75)].

(** * Properties *)

(** ** The order on cells *)

Section value_order.

Lemma ascii_compare_lt_trans (a b c : Ascii.ascii) :
  Ascii.compare a b = Lt → Ascii.compare b c = Lt → Ascii.compare a c = Lt.
Proof.
unfold Ascii.compare. rewrite !N.compare_lt_iff. apply N.lt_trans.
Qed.

Lemma string_compare_refl (s : string) : String.compare s s = Eq.
Proof.
induction s as [|a s IH]; simpl; [done|].
assert (Ascii.compare a a = Eq) as ->; [|done].
unfold Ascii.compare. apply N.compare_refl.
Qed.

Lemma string_compare_lt_trans (s t u : string) :
  String.compare s t = Lt → String.compare t u = Lt → String.compare s u = Lt.
Proof.
revert t u. induction s as [|a s IH]; intros [|b t] [|c u]; simpl; try done.
destruct (Ascii.compare a b) eqn:Hab; try done;
  destruct (Ascii.compare b c) eqn:Hbc; try done; intros Hst Htu.
- apply Ascii.compare_eq_iff in Hab as ->. rewrite Hbc. eauto.
- apply Ascii.compare_eq_iff in Hab as ->. by rewrite Hbc.
- apply Ascii.compare_eq_iff in Hbc as <-. by rewrite Hab.
- by rewrite (ascii_compare_lt_trans a b c).
Qed.

Lemma string_leb_alt (s t : string) :
  String.leb s t = true ↔ String.compare s t = Lt ∨ s = t.
Proof.
unfold String.leb. split.
- destruct (String.compare s t) eqn:H; try done; auto.
  right. by apply String.compare_eq_iff.
- intros [-> | ->]; [done|]. by rewrite string_compare_refl.
Qed.

Lemma string_leb_trans (s t u : string) :
  String.leb s t = true → String.leb t u = true → String.leb s u = true.
Proof.
rewrite !string_leb_alt. intros [Hst | ->] [Htu | <-]; auto.
left. by apply string_compare_lt_trans with t.
Qed.

#[global] Instance value_le_refl : Reflexive value_le.
Proof.
intros [|q|s]; unfold value_le; simpl; [done| |].
- by apply bool_decide_eq_true.
- apply string_leb_alt. by right.
Qed.

#[global] Instance value_le_trans : Transitive value_le.
Proof.
intros [|x|s] [|y|t] [|z|u]; unfold value_le; simpl; try done.
- rewrite !bool_decide_eq_true. apply Qcle_trans.
- apply string_leb_trans.
Qed.

#[global] Instance value_le_total : Total value_le.
Proof.
intros [|x|s] [|y|t]; unfold value_le; simpl; auto.
- rewrite !bool_decide_eq_true. apply (total Qcle).
- apply String.leb_total.
Qed.

#[global] Instance value_le_antisym : AntiSymm (=) value_le.
Proof.
intros [|x|s] [|y|t]; unfold value_le; simpl; try done.
- rewrite !bool_decide_eq_true. intros ??. f_equal. by apply Qcle_antisym.
- intros ??. f_equal. by apply String.leb_antisym.
Qed.

End value_order.

(** ** Distinct values and positions *)

Section factorize_facts.
Implicit Types (v : value) (vs cats : list value).

Lemma uniques_aux_spec (seen : list value) vs :
  NoDup seen →
  let r := foldl (λ seen v, if isnull v then seen
                            else if decide (v ∈ seen) then seen
                                 else seen ++ [v]) seen vs in
  NoDup r ∧ ∀ v, v ∈ r ↔ v ∈ seen ∨ (v ∈ vs ∧ isnull v = false).
Proof.
revert seen. induction vs as [|x vs IH]; intros seen Hnd; simpl.
- split; [done|]. intros v. rewrite elem_of_nil. naive_solver.
- destruct (isnull x) eqn:Hx.
  + destruct (IH seen Hnd) as [H1 H2]. split; [done|].
    intros v. rewrite H2, elem_of_cons. split; [naive_solver|].
    intros [?|[[->|?] ?]]; [auto|congruence|auto].
  + destruct (decide (x ∈ seen)) as [Hin|Hin].
    * destruct (IH seen Hnd) as [H1 H2]. split; [done|].
      intros v. rewrite H2, elem_of_cons. naive_solver.
    * assert (NoDup (seen ++ [x])) as Hnd'.
      { apply NoDup_app. split_and!; [done| |apply NoDup_singleton].
        intros y Hy ->%list_elem_of_singleton. done. }
      destruct (IH _ Hnd') as [H1 H2]. split; [done|].
      intros v. rewrite H2, elem_of_app, list_elem_of_singleton, elem_of_cons.
      naive_solver.
Qed.

Lemma NoDup_uniques vs : NoDup (uniques vs).
Proof. apply (uniques_aux_spec [] vs). constructor. Qed.

Lemma elem_of_uniques vs v : v ∈ uniques vs ↔ v ∈ vs ∧ isnull v = false.
Proof.
destruct (uniques_aux_spec [] vs (NoDup_nil_2)) as [_ H].
unfold uniques. rewrite H, elem_of_nil. naive_solver.
Qed.

Lemma index_of_Some v cats i :
  index_of v cats = Some i → cats !! i = Some v.
Proof.
revert i. induction cats as [|x cats IH]; intros i; simpl; [done|].
case_decide as Hx; [intros [= <-]; by subst|].
destruct (index_of v cats) as [j|]; simpl; [|done].
intros [= <-]. simpl. auto.
Qed.

Lemma index_of_None v cats : index_of v cats = None ↔ v ∉ cats.
Proof.
induction cats as [|x cats IH]; simpl.
- split; [intros _; apply not_elem_of_nil|done].
- rewrite not_elem_of_cons. case_decide as Hx; [naive_solver|].
  destruct (index_of v cats); simpl; naive_solver.
Qed.

Lemma index_of_lookup v cats i :
  NoDup cats → cats !! i = Some v → index_of v cats = Some i.
Proof.
intros Hnd Hi. destruct (index_of v cats) as [j|] eqn:Hj.
- f_equal. apply index_of_Some in Hj. by eapply NoDup_lookup.
- apply index_of_None in Hj. destruct Hj. by eapply list_elem_of_lookup_2.
Qed.

Lemma categories_factorize vs :
  categories (factorize vs) = merge_sort value_le (uniques vs).
Proof. done. Qed.

Lemma codes_factorize vs :
  codes (factorize vs) = code_of (categories (factorize vs)) <$> vs.
Proof. done. Qed.

Lemma length_codes_factorize vs : length (codes (factorize vs)) = length vs.
Proof. by rewrite codes_factorize, length_fmap. Qed.

(** The categories are the distinct non-missing values of the column. *)
Lemma elem_of_categories vs v :
  v ∈ categories (factorize vs) ↔ v ∈ vs ∧ isnull v = false.
Proof.
rewrite categories_factorize, merge_sort_Permutation. apply elem_of_uniques.
Qed.

Lemma NoDup_categories vs : NoDup (categories (factorize vs)).
Proof.
rewrite categories_factorize, merge_sort_Permutation. apply NoDup_uniques.
Qed.

Lemma categories_sorted vs :
  StronglySorted value_le (categories (factorize vs)).
Proof. rewrite categories_factorize. apply StronglySorted_merge_sort; apply _. Qed.

(** Strictly increasing: an earlier category is below a later one. *)
Lemma categories_increasing vs i j a b :
  categories (factorize vs) !! i = Some a →
  categories (factorize vs) !! j = Some b →
  i < j → value_lt a b.
Proof.
intros Hi Hj Hij. split.
- pose proof (categories_sorted vs) as Hs.
  rewrite <-(take_drop j (categories (factorize vs))) in Hs.
  apply (StronglySorted_app_1_elem_of _ _ _ _ _ Hs).
  + apply list_elem_of_lookup. exists i. by rewrite lookup_take_lt.
  + apply list_elem_of_lookup. exists 0.
    by rewrite lookup_drop, Nat.add_0_r.
- intros ->. pose proof (NoDup_lookup _ _ _ _ (NoDup_categories vs) Hi Hj). lia.
Qed.

Lemma code_of_present vs v :
  v ∈ vs → isnull v = false →
  ∃ i, code_of (categories (factorize vs)) v = Z.of_nat i
       ∧ categories (factorize vs) !! i = Some v.
Proof.
intros Hin Hv. unfold code_of. rewrite Hv.
destruct (index_of v (categories (factorize vs))) as [i|] eqn:Hi.
- exists i. split; [done|]. by apply index_of_Some.
- apply index_of_None in Hi. destruct Hi. by apply elem_of_categories.
Qed.

Lemma code_of_category vs i v :
  categories (factorize vs) !! i = Some v →
  code_of (categories (factorize vs)) v = Z.of_nat i.
Proof.
intros Hi. unfold code_of.
assert (isnull v = false) as ->.
{ apply list_elem_of_lookup_2, elem_of_categories in Hi. tauto. }
by rewrite (index_of_lookup _ _ i (NoDup_categories vs) Hi).
Qed.

End factorize_facts.

(** ** Lists: masks and slices *)

Section list_facts.
Implicit Types (mask : list bool).

Lemma select_fmap {A B} (f : A → B) mask (l : list A) :
  select mask (f <$> l) = f <$> select mask l.
Proof.
revert l. induction mask as [|b mask IH]; intros [|x l]; simpl; try done.
destruct b; simpl; by rewrite IH.
Qed.

Lemma select_length_eq {A B} mask (l : list A) (k : list B) :
  length l = length k → length (select mask l) = length (select mask k).
Proof.
revert l k. induction mask as [|b mask IH]; intros [|x l] [|y k]; simpl;
  try done.
intros [= Hlen]. destruct b; simpl; auto.
Qed.

(** A mask computed from the list itself is a filter. *)
Lemma select_filter {A} (f : A → bool) (l : list A) :
  select (f <$> l) l = filter (λ x, f x = true) l.
Proof.
induction l as [|x l IH]; simpl; [done|].
rewrite filter_cons, <-IH. case_decide as Hx.
- by rewrite Hx.
- by destruct (f x).
Qed.

Lemma select_seq_shift mask (n : nat) :
  select mask (seq (S n) (length mask)) = S <$> select mask (seq n (length mask)).
Proof. by rewrite <-select_fmap, fmap_S_seq. Qed.

Lemma select_positions `{Inhabited A} mask (l : list A) :
  length l = length mask →
  select mask l = (λ i, l !!! i) <$> positions mask.
Proof.
unfold positions. revert l.
induction mask as [|b mask IH]; intros [|x l]; simpl; try done.
intros [= Hlen]. rewrite select_seq_shift.
destruct b; simpl; rewrite <-list_fmap_compose; f_equal; by apply IH.
Qed.

Lemma lookup_total_seq `{Inhabited A} (l : list A) :
  (λ i, l !!! i) <$> seq 0 (length l) = l.
Proof.
apply list_eq. intros i. rewrite list_lookup_fmap.
destruct (decide (i < length l)) as [Hi|Hi].
- rewrite lookup_seq_lt by done. simpl.
  destruct (lookup_lt_is_Some_2 l i Hi) as [x Hx].
  by rewrite (list_lookup_total_correct _ _ _ Hx).
- rewrite lookup_seq_ge by lia. simpl. symmetry.
  apply lookup_ge_None. lia.
Qed.

Lemma slice_head_app {A} (l1 l2 : list A) :
  slice 0 (Some (length l1)) (l1 ++ l2) = l1.
Proof. unfold slice. rewrite Nat.sub_0_r, drop_0. apply take_app_length. Qed.

Lemma slice_tail_app {A} (l1 l2 : list A) :
  slice (length l1) None (l1 ++ l2) = l2.
Proof. unfold slice. apply drop_app_length. Qed.

Lemma slice_head_tail {A} (n : nat) (l : list A) :
  slice 0 (Some n) l ++ slice n None l = l.
Proof. unfold slice. rewrite Nat.sub_0_r, drop_0. apply take_drop. Qed.

Lemma slice_fmap {A B} (f : A → B) start stop (l : list A) :
  slice start stop (f <$> l) = f <$> slice start stop l.
Proof.
unfold slice. destruct stop; by rewrite ?fmap_take, ?fmap_drop.
Qed.

End list_facts.

(** ** Frames *)

Section frame_facts.

Lemma frame_eq {C} (df1 df2 : Frame C) :
  index df1 = index df2 →
  (∀ k, columns df1 !! k = columns df2 !! k) →
  df1 = df2.
Proof.
destruct df1, df2; simpl. intros -> H. f_equal. by apply map_eq.
Qed.

(** *** The column pruner *)

Lemma lookup_foldr_delete {C} (labels : list string) (m : gmap string C) k :
  foldr delete m labels !! k = if decide (k ∈ labels) then None else m !! k.
Proof.
induction labels as [|l labels IH].
- by destruct (decide (k ∈ [])) as [Hin%elem_of_nil|].
- cbn [foldr]. rewrite lookup_delete, IH.
  destruct (decide (l = k)) as [->|Hne].
  + destruct (decide (k ∈ k :: labels)) as [|Hn]; [done|].
    destruct Hn. apply list_elem_of_here.
  + destruct (decide (k ∈ labels)) as [Hin|Hin],
      (decide (k ∈ l :: labels)) as [Hin'|Hin']; try done.
    * destruct Hin'. by apply list_elem_of_further.
    * apply elem_of_cons in Hin' as [->|?]; done.
Qed.

Lemma missing_label_Some {C} labels (df : Frame C) l :
  missing_label labels df = Some l → l ∈ labels ∧ columns df !! l = None.
Proof.
unfold missing_label.
destruct (list_find _ labels) as [[i x]|] eqn:Hf; simpl; [|done].
intros [= <-]. apply list_find_Some in Hf as (Hi & Hx & _).
split; [by eapply list_elem_of_lookup_2|done].
Qed.

Lemma missing_label_None {C} labels (df : Frame C) :
  missing_label labels df = None ↔ ∀ l, l ∈ labels → is_Some (columns df !! l).
Proof.
unfold missing_label.
destruct (list_find _ labels) as [[i x]|] eqn:Hf; simpl.
- apply list_find_Some in Hf as (Hi & Hx & _). split; [done|].
  intros H. apply list_elem_of_lookup_2, H in Hi. rewrite Hx in Hi.
  by destruct Hi.
- split; [|done]. intros _ l Hl.
  rewrite list_find_None, Forall_forall in Hf. apply Hf in Hl.
  by apply not_eq_None_Some.
Qed.

Lemma drop_Ok {C} labels (df df' : Frame C) :
  drop labels df = Ok df' ↔
    (∀ l, l ∈ labels → is_Some (columns df !! l)) ∧
    df' = {| index := index df; columns := foldr delete (columns df) labels |}.
Proof.
unfold drop. destruct (missing_label labels df) as [l|] eqn:Hm.
- apply missing_label_Some in Hm as [Hl Hnone]. split; [done|].
  intros [H _]. apply H in Hl. rewrite Hnone in Hl. by destruct Hl.
- rewrite missing_label_None in Hm. split; [intros [= <-]|]; naive_solver.
Qed.

Lemma drop_Raise {C} labels (df : Frame C) e :
  drop labels df = Raise e →
  ∃ l, e = KeyError l ∧ l ∈ labels ∧ columns df !! l = None.
Proof.
unfold drop. destruct (missing_label labels df) as [l|] eqn:Hm; [|done].
intros [= <-]. apply missing_label_Some in Hm. eauto.
Qed.

(** *** Well-formedness is kept by every step on plain frames *)

Lemma wf_lookup df k col :
  wf df → columns df !! k = Some col → length col = len df.
Proof. intros Hwf Hk. by apply (Hwf k col). Qed.

Lemma wf_getitem_mask df mask : wf df → wf (getitem_mask df mask).
Proof.
intros Hwf k col. unfold getitem_mask, len. simpl.
rewrite lookup_fmap. destruct (columns df !! k) as [c|] eqn:Hk; [|done].
intros [= <-]. apply select_length_eq. by eapply wf_lookup.
Qed.

Lemma wf_drop labels df df' : wf df → drop labels df = Ok df' → wf df'.
Proof.
intros Hwf [_ ->]%drop_Ok k col. simpl.
rewrite lookup_foldr_delete. case_decide; [done|]. apply Hwf.
Qed.

Lemma lookup_concat a b k :
  columns (concat a b) !! k
  = concat_column (len a) (len b) (columns a !! k) (columns b !! k).
Proof.
unfold concat. simpl. rewrite lookup_merge.
by destruct (columns a !! k), (columns b !! k).
Qed.

Lemma len_concat a b : len (concat a b) = len a + len b.
Proof. unfold len, concat. simpl. apply length_app. Qed.

Lemma wf_concat a b : wf a → wf b → wf (concat a b).
Proof.
intros Ha Hb k col. rewrite lookup_concat, len_concat.
destruct (columns a !! k) as [x|] eqn:Hx, (columns b !! k) as [y|] eqn:Hy;
  simpl; intros [= <-]; rewrite length_app, ?length_replicate;
  repeat match goal with
         | H : columns ?d !! _ = Some _ |- _ => apply wf_lookup in H; [|done]
         end; lia.
Qed.

Lemma set_index_Ok label df df' :
  set_index label df = Ok df' ↔
    ∃ col, columns df !! label = Some col ∧
           df' = {| index := col; columns := delete label (columns df) |}.
Proof.
unfold set_index, getitem.
destruct (columns df !! label) as [col|]; simpl; split.
- intros [= <-]. eauto.
- by intros (? & [= <-] & ->).
- done.
- by intros (? & ? & _).
Qed.

Lemma wf_set_index label df df' :
  wf df → set_index label df = Ok df' → wf df' ∧ len df' = len df.
Proof.
intros Hwf (col & Hcol & ->)%set_index_Ok.
pose proof (wf_lookup _ _ _ Hwf Hcol) as Hlen. split; [|done].
intros k c. simpl. unfold len. simpl. rewrite Hlen.
rewrite lookup_delete. case_decide; [done|]. apply Hwf.
Qed.

End frame_facts.

(** ** Rows *)

Section row_facts.
Implicit Types (df : Frame (list value)).

Lemma length_rows df : length (rows df) = len df.
Proof. unfold rows. by rewrite length_fmap, length_seq. Qed.

Lemma cell_row_at df k i :
  cell k (row_at df i) = default NaN ((λ col, col !!! i) <$> columns df !! k).
Proof. unfold cell, row_at. simpl. by rewrite lookup_fmap. Qed.

(** Reading a label off every row gives back the column. *)
Lemma cell_rows df k : wf df → cell k <$> rows df = column_or_nan df k.
Proof.
intros Hwf. unfold rows, column_or_nan. rewrite <-list_fmap_compose.
destruct (columns df !! k) as [col|] eqn:Hk; simpl.
- rewrite <-(wf_lookup _ _ _ Hwf Hk).
  etrans; [|apply (lookup_total_seq col)].
  apply list_fmap_ext. intros _ i _. simpl. by rewrite cell_row_at, Hk.
- apply list_eq. intros i. rewrite list_lookup_fmap.
  destruct (decide (i < len df)) as [Hi|Hi].
  + rewrite lookup_seq_lt, lookup_replicate_2 by done. simpl.
    by rewrite cell_row_at, Hk.
  + rewrite lookup_seq_ge by lia. symmetry.
    apply lookup_replicate_None. lia.
Qed.

Lemma cell_rows_Some df k col :
  wf df → columns df !! k = Some col → cell k <$> rows df = col.
Proof. intros Hwf Hk. rewrite cell_rows by done. unfold column_or_nan. by rewrite Hk. Qed.

Lemma index_rows df : fst <$> rows df = index df.
Proof.
unfold rows. rewrite <-list_fmap_compose.
etrans; [|apply (lookup_total_seq (index df))]. done.
Qed.

(** Masking a frame masks its rows. *)
Lemma rows_getitem_mask df mask :
  wf df → length mask = len df →
  rows (getitem_mask df mask) = select mask (rows df).
Proof.
intros Hwf Hlen. unfold rows at 2. rewrite select_fmap.
assert (select mask (seq 0 (len df)) = positions mask) as ->.
{ unfold positions. by rewrite Hlen. }
rewrite <-(lookup_total_seq (positions mask)) at 1.
rewrite <-list_fmap_compose.
assert (len (getitem_mask df mask) = length (positions mask)) as Hn.
{ unfold len, getitem_mask, positions. simpl.
  apply select_length_eq. by rewrite length_seq. }
unfold rows. rewrite Hn. apply list_fmap_ext. intros i j Hj%lookup_seq.
simpl in Hj. destruct Hj as [-> Hj]. simpl. unfold row_at, getitem_mask. simpl.
f_equal.
- rewrite select_positions by done.
  by apply (list_lookup_total_fmap (λ i, index df !!! i)).
- rewrite <-map_fmap_compose. apply map_fmap_ext. intros k col Hk. simpl.
  rewrite select_positions by (rewrite Hlen; by eapply wf_lookup).
  by apply (list_lookup_total_fmap (λ i, col !!! i)).
Qed.

End row_facts.

(** ** The cast to float64 *)

Lemma Int_Qnum (q : Qc) : Qden q = 1%positive → Int (Qnum q) = Num q.
Proof.
intros Hd. unfold Int. f_equal. apply Qc_is_canon.
unfold Qc_of_Z. cbn [this].
unfold Qeq, inject_Z. cbn [Qnum Qden]. rewrite Hd. lia.
Qed.

Lemma float64_of_Z_small (n : Z) :
  (Z.abs n <= 2 ^ 53)%Z → float64_of_Z n = n.
Proof.
intros Hn. destruct (decide (Z.abs n = 2 ^ 53)%Z) as [He|Hne].
- destruct (Z.abs_eq_or_opp n) as [H|H]; rewrite H in He.
  + subst n. vm_compute. reflexivity.
  + assert (n = - 2 ^ 53)%Z as -> by lia. vm_compute. reflexivity.
- unfold float64_of_Z.
  assert (Z.log2 (Z.abs n) - 52 <= 0)%Z as He.
  { destruct (decide (Z.abs n = 0)%Z) as [->|Hz]; [vm_compute; discriminate|].
    assert (Z.log2 (Z.abs n) < 53)%Z; [|lia].
    apply Z.log2_lt_pow2; lia. }
  apply Z.leb_le in He. by rewrite He.
Qed.

(** The cast leaves a float-safe cell as it is. *)
Lemma to_float64_safe (v : value) :
  float_safe_cell v = true → to_float64 v = v.
Proof.
destruct v as [|q|s]; [done| |done]. unfold float_safe_cell, to_float64.
destruct (Pos.eqb_spec (Qden q) 1) as [Hd|Hd]; [|done].
cbn [negb orb]. intros Hn%Z.leb_le.
rewrite float64_of_Z_small by done. by apply Int_Qnum.
Qed.

Lemma to_float64_safe_column (df : Frame (list value)) (k : string) :
  float_safe_column df k → to_float64 <$> column_or_nan df k = column_or_nan df k.
Proof.
unfold float_safe_column. induction 1 as [|v vs Hv _ IH]; [done|].
cbn [fmap list_fmap]. by rewrite (to_float64_safe v Hv), IH.
Qed.

Lemma float_safe_column_of (df : Frame (list value)) (k : string) :
  float_safe df → float_safe_column df k.
Proof.
intros [_ Hc]. unfold float_safe_column, column_or_nan.
destruct (columns df !! k) as [col|] eqn:Hk; cbn [default].
- exact (Hc k col Hk).
- by apply Forall_replicate.
Qed.

(** What the cast does beyond 2^53. *)
Example float64_rounds :
  float64_of_Z (2 ^ 53 + 1) = (2 ^ 53)%Z
  ∧ float64_of_Z (2 ^ 53 + 3) = (2 ^ 53 + 4)%Z
  ∧ float64_of_Z (2 ^ 63 + 1) = (2 ^ 63)%Z
  ∧ float_safe_cell (Int (2 ^ 53 + 1)) = false
  ∧ float_safe_cell (Int (2 ^ 53)) = true.
Proof. split_and!; vm_compute; reflexivity. Qed.

(** * The stages of the pipeline *)

(** ** Filter *)

Lemma compliance_mask (train : Frame (list value)) vs :
  wf train → columns train !! "compliance" = Some vs →
  mask_or (eq_scalar {| s_index := index train; s_values := vs |} 1%Qc)
          (eq_scalar {| s_index := index train; s_values := vs |} 0%Qc)
  = outcome_defined <$> rows train.
Proof.
intros Hwf Hk. unfold mask_or, eq_scalar. simpl.
rewrite zip_with_fmap_l, zip_with_fmap_r, zip_with_diag.
rewrite <-(cell_rows_Some train "compliance" vs) by done.
by rewrite <-list_fmap_compose.
Qed.

Lemma compliance_filter_rows (train out : Frame (list value)) :
  wf train → compliance_filter train = Ok out →
  wf out ∧ rows out = filter (λ r, outcome_defined r = true) (rows train).
Proof.
intros Hwf. unfold compliance_filter, getitem_series, getitem.
destruct (columns train !! "compliance") as [vs|] eqn:Hk; simpl; [|done].
intros [= <-]. split; [by apply wf_getitem_mask|].
rewrite (compliance_mask train vs) by done.
rewrite rows_getitem_mask by (by rewrite ?length_fmap, ?length_rows).
apply select_filter.
Qed.

(** C3.  On a training table that has the outcome column, the filter
    returns a table (it raises nothing) whose rows are exactly the rows of
    the input whose outcome is one of the two defined classes, in their
    original order; rows with a missing outcome or with any other value are
    gone, and the row count is the number of rows with a defined outcome. *)
Theorem compliance_filter_keeps_defined (train : Frame (list value)) :
  wf train → is_Some (columns train !! "compliance") →
  ∃ out, compliance_filter train = Ok out
         ∧ rows out = filter (λ r, outcome_defined r = true) (rows train)
         ∧ len out = length (filter (λ r, outcome_defined r = true) (rows train))
         ∧ (∀ r, r ∈ rows out ↔
                 r ∈ rows train ∧ (cell "compliance" r = Num 1%Qc
                                   ∨ cell "compliance" r = Num 0%Qc)).
Proof.
intros Hwf [vs Hk].
assert (∃ out, compliance_filter train = Ok out) as [out Hout].
{ unfold compliance_filter, getitem_series, getitem. rewrite Hk. simpl. eauto. }
exists out. destruct (compliance_filter_rows _ _ Hwf Hout) as [Hwf' Hrows].
split_and!; [done|done| |].
- by rewrite <-Hrows, length_rows.
- intros r. rewrite Hrows, list_elem_of_filter. unfold outcome_defined.
  rewrite orb_true_iff, !bool_decide_eq_true. tauto.
Qed.

Lemma compliance_filter_keeps_defined_witness :
  ∃ out, compliance_filter ex_train = Ok out
         ∧ rows out = filter (λ r, outcome_defined r = true) (rows ex_train)
         ∧ len out = length (filter (λ r, outcome_defined r = true) (rows ex_train))
         ∧ (∀ r, r ∈ rows out ↔
                 r ∈ rows ex_train ∧ (cell "compliance" r = Num 1%Qc
                                      ∨ cell "compliance" r = Num 0%Qc)).
Proof.
apply (compliance_filter_keeps_defined ex_train).
- apply (bool_decide_unpack _). vm_compute. exact I.
- eexists. vm_compute. reflexivity.
Defined.

(** A table without the outcome column cannot be filtered. *)
Lemma compliance_filter_missing_column (train : Frame (list value)) :
  columns train !! "compliance" = None →
  compliance_filter train = Raise (KeyError "compliance").
Proof.
intros Hk. unfold compliance_filter, getitem_series, getitem. by rewrite Hk.
Qed.

(** The scenario: six rows, four with a defined outcome. *)
Example compliance_filter_scenario :
  len ex_train = 6 ∧
  (len <$> (match compliance_filter ex_train with
            | Ok out => Some out | Raise _ => None end)) = Some 4.
Proof. split; vm_compute; reflexivity. Qed.

(** ** Column pruner *)

Lemma dom_foldr_delete {C} (labels : list string) (m : gmap string C) :
  dom (foldr delete m labels) = dom m ∖ list_to_set labels.
Proof.
apply set_eq. intros k.
rewrite elem_of_difference, !elem_of_dom, elem_of_list_to_set.
rewrite lookup_foldr_delete. case_decide as Hin.
- split; [by intros [? ?]|tauto].
- tauto.
Qed.

(** C9.  Dropping a list of labels raises a key error exactly when one of
    the labels is not a column of the table; when every label is a column
    it returns the table with the same rows, the columns being exactly the
    ones that were not named, unchanged. *)
Theorem drop_fails_iff_label_absent {C} (labels : list string) (df : Frame C) :
  ((∃ l, l ∈ labels ∧ columns df !! l = None)
     ↔ ∃ l, drop labels df = Raise (KeyError l))
  ∧ ((∀ l, l ∈ labels → is_Some (columns df !! l))
     ↔ ∃ df', drop labels df = Ok df')
  ∧ (∀ df', drop labels df = Ok df' →
       index df' = index df
       ∧ dom (columns df') = dom (columns df) ∖ list_to_set labels
       ∧ ∀ k, k ∉ labels → columns df' !! k = columns df !! k).
Proof.
split_and!.
- split.
  + intros (l & Hl & Hnone). destruct (drop labels df) as [df'|e] eqn:Hd.
    * apply drop_Ok in Hd as [Hall _]. apply Hall in Hl.
      rewrite Hnone in Hl. by destruct Hl.
    * apply drop_Raise in Hd as (l' & -> & _). eauto.
  + intros [l (l' & [= <-] & ? & ?)%drop_Raise]. eauto.
- split.
  + intros Hall. eexists. apply drop_Ok. eauto.
  + intros [df' [Hall _]%drop_Ok]. done.
- intros df' [_ ->]%drop_Ok. simpl. split_and!; [done|apply dom_foldr_delete|].
  intros k Hk. rewrite lookup_foldr_delete. by case_decide.
Qed.

Lemma drop_fails_iff_label_absent_witness :
  (∃ l, drop ["compliance"] ex_test = Raise (KeyError l))
  ∧ (∃ df', drop common_drop ex_test = Ok df').
Proof.
split.
- apply (proj1 (drop_fails_iff_label_absent ["compliance"] ex_test)).
  exists "compliance". split; [apply list_elem_of_here|].
  vm_compute. reflexivity.
- apply (proj1 (proj2 (drop_fails_iff_label_absent common_drop ex_test))).
  apply Forall_forall. apply (bool_decide_unpack _). vm_compute. exact I.
Defined.

Example drop_absent_label :
  drop ["compliance"] ex_test = Raise (KeyError "compliance").
Proof. vm_compute. reflexivity. Qed.

Example drop_present_labels :
  (λ df, dom (columns df)) <$>
    (match drop common_drop ex_test with Ok df => Some df | Raise _ => None end)
  = Some (list_to_set ["ticket_id"; "agency_name"; "inspector_name";
                       "violation_street_name"; "violation_code";
                       "disposition"; "fine_amount"]).
Proof. vm_compute. reflexivity. Qed.

(** ** The two passes of the encoder *)

Section encode_facts.
Implicit Types (df : Frame column) (cols : list string).

Lemma astype_category_idemp x :
  astype_category (astype_category x) = astype_category x.
Proof. by destruct x. Qed.

Lemma astype_loop_Ok cols df df1 :
  astype_loop cols df = Ok df1 →
  (∀ c, c ∈ cols → is_Some (columns df !! c))
  ∧ index df1 = index df
  ∧ ∀ k, columns df1 !! k
         = (if decide (k ∈ cols) then astype_category else id) <$> columns df !! k.
Proof.
revert df. induction cols as [|c cols IH]; intros df; simpl.
- intros [= <-]. split_and!; [by intros ? ?%elem_of_nil|done|].
  intros k. destruct (decide (k ∈ [])) as [?%elem_of_nil|]; [done|].
  by rewrite option_fmap_id.
- unfold getitem at 1. destruct (columns df !! c) as [x|] eqn:Hc; simpl; [|done].
  intros (Hall & Hidx & Hcols)%IH. simpl in *. split_and!; [|done|].
  + intros c' [->|Hin]%elem_of_cons; [by rewrite Hc|].
    specialize (Hall c' Hin). rewrite lookup_insert in Hall.
    case_decide; [subst; by rewrite Hc|done].
  + intros k. rewrite Hcols, lookup_insert.
    destruct (decide (c = k)) as [->|Hne].
    * rewrite Hc. simpl.
      destruct (decide (k ∈ k :: cols)) as [_|Hn];
        [|destruct Hn; apply list_elem_of_here].
      case_decide; by rewrite ?astype_category_idemp.
    * destruct (decide (k ∈ cols)) as [Hin|Hin],
        (decide (k ∈ c :: cols)) as [Hin'|Hin']; try done.
      -- destruct Hin'. by apply list_elem_of_further.
      -- by apply elem_of_cons in Hin' as [->|?].
Qed.

Lemma astype_loop_total cols df :
  (∀ c, c ∈ cols → is_Some (columns df !! c)) →
  ∃ df1, astype_loop cols df = Ok df1.
Proof.
revert df. induction cols as [|c cols IH]; intros df Hall; simpl; [eauto|].
destruct (Hall c) as [x Hc]; [apply list_elem_of_here|].
unfold getitem at 1. rewrite Hc. simpl. apply IH.
intros c' Hin. simpl. rewrite lookup_insert. case_decide; [done|].
apply Hall. by apply list_elem_of_further.
Qed.

Lemma astype_loop_Raise cols df e :
  astype_loop cols df = Raise e →
  ∃ c, e = KeyError c ∧ c ∈ cols ∧ columns df !! c = None.
Proof.
revert df. induction cols as [|c cols IH]; intros df; simpl; [done|].
unfold getitem at 1. destruct (columns df !! c) as [x|] eqn:Hc; simpl.
- intros (c' & -> & Hin & Hnone)%IH. exists c'. simpl in Hnone.
  rewrite lookup_insert in Hnone. case_decide; [done|].
  split_and!; [done|by apply list_elem_of_further|done].
- intros [= <-]. exists c. split_and!; [done|apply list_elem_of_here|done].
Qed.

(** Once every named column is a categorical, reading the codes raises
    nothing. *)
Lemma apply_codes_categorical cols df :
  (∀ c, c ∈ cols → ∃ x, columns df !! c = Some (astype_category x)) →
  apply_codes cols df
  = Ok ((λ c, (c, default (Values []) (encoded <$> columns df !! c))) <$> cols).
Proof.
induction cols as [|c cols IH]; intros Hall; simpl; [done|].
destruct (Hall c) as [x Hc]; [apply list_elem_of_here|].
unfold getitem at 1. rewrite Hc. simpl.
rewrite IH by (intros ??; apply Hall; by apply list_elem_of_further).
destruct x as [vs|cat]; simpl; done.
Qed.

Lemma setitem_columns_lookup (g : string → column) cols df :
  index (setitem_columns df ((λ c, (c, g c)) <$> cols)) = index df
  ∧ ∀ k, columns (setitem_columns df ((λ c, (c, g c)) <$> cols)) !! k
         = if decide (k ∈ cols) then Some (g k) else columns df !! k.
Proof.
unfold setitem_columns. revert df.
induction cols as [|c cols IH]; intros df; simpl.
- split; [done|]. intros k. by destruct (decide (k ∈ [])) as [?%elem_of_nil|].
- destruct (IH (setitem df c (g c))) as [Hidx Hcols]. split; [done|].
  intros k. rewrite Hcols. simpl. rewrite lookup_insert.
  destruct (decide (k ∈ cols)) as [Hin|Hin],
    (decide (k ∈ c :: cols)) as [Hin'|Hin']; try done.
  + destruct Hin'. by apply list_elem_of_further.
  + apply elem_of_cons in Hin' as [->|?]; [|done]. by rewrite decide_True.
  + case_decide; [subst; destruct Hin'; apply list_elem_of_here|done].
Qed.

Lemma encode_Ok cols df enc :
  encode cols df = Ok enc →
  (∀ c, c ∈ cols → is_Some (columns df !! c))
  ∧ index enc = index df
  ∧ ∀ k, columns enc !! k
         = (if decide (k ∈ cols) then encoded else id) <$> columns df !! k.
Proof.
unfold encode. destruct (astype_loop cols df) as [df1|e] eqn:H1; simpl; [|done].
apply astype_loop_Ok in H1 as (Hall & Hidx & Hcols).
rewrite apply_codes_categorical; simpl.
2:{ intros c Hc. destruct (Hall c Hc) as [x Hx]. exists x.
    rewrite Hcols, Hx. simpl. by rewrite decide_True. }
intros [= <-].
destruct (setitem_columns_lookup
            (λ c, default (Values []) (encoded <$> columns df1 !! c)) cols df1)
  as [Hidx' Hcols'].
split_and!; [done|congruence|]. intros k. rewrite Hcols'.
destruct (decide (k ∈ cols)) as [Hin|Hin].
- rewrite Hcols, decide_True by done. destruct (Hall k Hin) as [x ->]. simpl.
  f_equal. unfold encoded. by rewrite astype_category_idemp.
- rewrite Hcols, decide_False by done. done.
Qed.

Lemma encode_total cols df :
  (∀ c, c ∈ cols → is_Some (columns df !! c)) →
  ∃ enc, encode cols df = Ok enc.
Proof.
intros Hall. destruct (astype_loop_total cols df Hall) as [df1 H1].
unfold encode. rewrite H1. simpl.
apply astype_loop_Ok in H1 as (_ & _ & Hcols).
rewrite apply_codes_categorical; simpl; [eauto|].
intros c Hc. destruct (Hall c Hc) as [x Hx]. exists x.
rewrite Hcols, Hx. simpl. by rewrite decide_True.
Qed.

Lemma encode_Raise cols df e :
  encode cols df = Raise e →
  ∃ c, e = KeyError c ∧ c ∈ cols ∧ columns df !! c = None.
Proof.
unfold encode. destruct (astype_loop cols df) as [df1|e'] eqn:H1; simpl.
- apply astype_loop_Ok in H1 as (Hall & _ & Hcols).
  rewrite apply_codes_categorical; simpl; [done|].
  intros c Hc. destruct (Hall c Hc) as [x Hx]. exists x.
  rewrite Hcols, Hx. simpl. by rewrite decide_True.
- intros [= <-]. by apply astype_loop_Raise.
Qed.

End encode_facts.

(** ** Concatenation, slicing and the cells of [prepare] *)

Section pipeline_facts.
Implicit Types (a b df : Frame (list value)).

Lemma length_column_or_nan df k : wf df → length (column_or_nan df k) = len df.
Proof.
intros Hwf. unfold column_or_nan.
destruct (columns df !! k) as [col|] eqn:Hk; simpl.
- by eapply wf_lookup.
- apply length_replicate.
Qed.

(** A column of the concatenation is the column of the first table followed
    by the column of the second, either one all missing where absent. *)
Lemma lookup_concat_Some a b k col :
  columns (concat a b) !! k = Some col →
  col = column_or_nan a k ++ column_or_nan b k.
Proof.
rewrite lookup_concat. unfold column_or_nan.
destruct (columns a !! k), (columns b !! k); simpl; congruence.
Qed.

Lemma lookup_concat_None a b k :
  columns (concat a b) !! k = None ↔
  columns a !! k = None ∧ columns b !! k = None.
Proof.
rewrite lookup_concat.
destruct (columns a !! k), (columns b !! k); simpl; naive_solver.
Qed.

Lemma index_iloc start stop (df : Frame column) :
  index (iloc start stop df) = slice start stop (index df).
Proof. done. Qed.

Lemma lookup_iloc start stop (df : Frame column) k :
  columns (iloc start stop df) !! k = col_slice start stop <$> columns df !! k.
Proof. unfold iloc. simpl. by rewrite lookup_fmap. Qed.

Lemma lookup_to_columns df k :
  columns (to_columns df) !! k = Values <$> columns df !! k.
Proof. unfold to_columns. simpl. by rewrite lookup_fmap. Qed.

(** The encoder on a plain frame, column by column. *)
Lemma encode_to_columns_lookup cols df enc k :
  encode cols (to_columns df) = Ok enc →
  columns enc !! k
  = (λ vs, Values (if decide (k ∈ cols)
                   then Int <$> (code_of (categories (factorize vs)) <$> vs)
                   else vs)) <$> columns df !! k.
Proof.
intros (_ & _ & Hcols)%encode_Ok. rewrite Hcols, lookup_to_columns.
destruct (columns df !! k) as [vs|]; simpl; [|done]. by case_decide.
Qed.

Lemma encode_to_columns_index cols df enc :
  encode cols (to_columns df) = Ok enc → index enc = index df.
Proof. by intros (_ & -> & _)%encode_Ok. Qed.

End pipeline_facts.

Section prepare_facts.
Implicit Types (a b : Frame (list value)).

(** The stages a successful run went through. *)
Lemma prepare_Ok a b p :
  prepare a b = Ok p →
  ∃ t1 lab t2 df1 df2 enc,
    compliance_filter a = Ok t1
    ∧ columns t1 !! "compliance" = Some lab
    ∧ drop train_drop t1 = Ok t2
    ∧ drop common_drop (concat t2 b) = Ok df1
    ∧ set_index "ticket_id" df1 = Ok df2
    ∧ encode cat_columns (to_columns df2) = Ok enc
    ∧ p = {| X_train := iloc 0 (Some (len t2)) enc;
             y_train := {| s_index := index t1; s_values := lab |};
             X_test := iloc (len t2) None enc |}.
Proof.
unfold prepare.
destruct (compliance_filter a) as [t1|] eqn:H1; simpl; [|done].
unfold getitem_series, getitem.
destruct (columns t1 !! "compliance") as [lab|] eqn:Hlab; simpl; [|done].
destruct (drop train_drop t1) as [t2|] eqn:H2; simpl; [|done].
destruct (display_uniques (concat t2 b)) as [[]|] eqn:Hd; simpl; [|done].
destruct (drop common_drop (concat t2 b)) as [df1|] eqn:H3; simpl; [|done].
destruct (set_index "ticket_id" df1) as [df2|] eqn:H4; simpl; [|done].
destruct (encode cat_columns (to_columns df2)) as [enc|] eqn:H5; simpl; [|done].
intros [= <-]. by exists t1, lab, t2, df1, df2, enc.
Qed.

(** The training table after the filter and the first pruning, in terms of
    the rows of the file. *)
Lemma filtered_train a t1 t2 :
  wf a → compliance_filter a = Ok t1 → drop train_drop t1 = Ok t2 →
  let kept := filter (λ r, outcome_defined r = true) (rows a) in
  wf t2
  ∧ len t2 = length kept
  ∧ index t1 = fst <$> kept
  ∧ index t2 = fst <$> kept
  ∧ (∀ k, column_or_nan t1 k = cell k <$> kept)
  ∧ (∀ k, column_or_nan t2 k
          = if decide (k ∈ train_drop) then replicate (length kept) NaN
            else cell k <$> kept)
  ∧ (∀ k, is_Some (columns t2 !! k)
          ↔ is_Some (columns a !! k) ∧ k ∉ train_drop).
Proof.
intros Hwf H1 H2 kept.
destruct (compliance_filter_rows _ _ Hwf H1) as [Hwf1 Hrows].
pose proof (wf_drop _ _ _ Hwf1 H2) as Hwf2.
apply drop_Ok in H2 as [Hall ->].
assert (len t1 = length kept) as Hlen by (by rewrite <-length_rows, Hrows).
assert (∀ k, column_or_nan t1 k = cell k <$> kept) as Hcol.
{ intros k. by rewrite <-cell_rows, Hrows. }
assert (index t1 = fst <$> kept) as Hidx by (by rewrite <-index_rows, Hrows).
split_and!; try done.
- intros k. unfold column_or_nan at 1, len. cbn [columns index].
  rewrite lookup_foldr_delete.
  case_decide; cbn [default]; [by rewrite <-Hlen|]. apply Hcol.
- intros k. cbn [columns]. rewrite lookup_foldr_delete.
  unfold compliance_filter, getitem_series, getitem in H1.
  destruct (columns a !! "compliance"); simpl in H1; [|done].
  injection H1 as <-. cbn [columns getitem_mask].
  case_decide; [split; [by intros [? ?]|tauto]|].
  rewrite lookup_fmap, fmap_is_Some. tauto.
Qed.

(** The unified table after the second pruning and the re-indexing. *)
Lemma unified_table t2 b df1 df2 :
  wf t2 → wf b →
  drop common_drop (concat t2 b) = Ok df1 →
  set_index "ticket_id" df1 = Ok df2 →
  wf df2
  ∧ len df2 = len t2 + len b
  ∧ index df2 = column_or_nan t2 "ticket_id" ++ column_or_nan b "ticket_id"
  ∧ ∀ k, columns df2 !! k
         = if decide (k = "ticket_id" ∨ k ∈ common_drop
                      ∨ (columns t2 !! k = None ∧ columns b !! k = None))
           then None
           else Some (column_or_nan t2 k ++ column_or_nan b k).
Proof.
intros Hwf2 Hwfb H3 H4.
pose proof (wf_concat _ _ Hwf2 Hwfb) as Hwf0.
pose proof (wf_drop _ _ _ Hwf0 H3) as Hwf1.
destruct (wf_set_index _ _ _ Hwf1 H4) as [Hwf Hlen].
apply drop_Ok in H3 as [_ ->].
apply set_index_Ok in H4 as (col & Hcol & ->). cbn [columns index] in *.
rewrite lookup_foldr_delete in Hcol. case_decide as Hin; [done|].
split_and!; [done| |by apply lookup_concat_Some|].
- rewrite Hlen. unfold len at 1. cbn [index concat]. apply length_app.
- intros k. rewrite lookup_delete, lookup_foldr_delete.
  destruct (decide ("ticket_id" = k)) as [<-|Hne].
  { rewrite decide_True; [done|by left]. }
  destruct (decide (k ∈ common_drop)) as [Hk|Hk].
  { rewrite decide_True; [done|by right; left]. }
  destruct (columns (concat t2 b) !! k) as [c|] eqn:Hc.
  + rewrite decide_False; [by rewrite (lookup_concat_Some _ _ _ _ Hc)|].
    intros [?|[?|Hnone]]; [done|done|].
    apply lookup_concat_None in Hnone. congruence.
  + rewrite decide_True; [done|]. right; right. by apply lookup_concat_None.
Qed.

End prepare_facts.

Section prepare_spec.
Implicit Types (a b : Frame (list value)).

Lemma length_train_part a k : length (train_part a k) = length (kept_rows a).
Proof.
unfold train_part. case_decide; by rewrite ?length_replicate, ?length_fmap.
Qed.

Lemma slice_fmap_head {A B} (f : A → B) (l1 l2 : list A) (n : nat) :
  n = length l1 → slice 0 (Some n) (f <$> (l1 ++ l2)) = f <$> l1.
Proof. intros ->. by rewrite slice_fmap, slice_head_app. Qed.

Lemma slice_fmap_tail {A B} (f : A → B) (l1 l2 : list A) (n : nat) :
  n = length l1 → slice n None (f <$> (l1 ++ l2)) = f <$> l2.
Proof. intros ->. by rewrite slice_fmap, slice_tail_app. Qed.

(** What a successful run returns, in terms of the rows of the two files. *)
Lemma prepare_spec a b p :
  wf a → wf b → prepare a b = Ok p →
  y_train p = {| s_index := fst <$> kept_rows a;
                 s_values := cell "compliance" <$> kept_rows a |}
  ∧ index (X_train p) = train_part a "ticket_id"
  ∧ index (X_test p) = test_part b "ticket_id"
  ∧ (∀ k, columns (X_train p) !! k
          = if decide (feature_label a b k)
            then Some (Values (feature_code a b k <$> train_part a k))
            else None)
  ∧ (∀ k, columns (X_test p) !! k
          = if decide (feature_label a b k)
            then Some (Values (feature_code a b k <$> test_part b k))
            else None)
  ∧ (∀ k, k ∈ cat_columns → feature_label a b k).
Proof.
intros Hwfa Hwfb (t1 & lab & t2 & df1 & df2 & enc
                  & H1 & Hlab & H2 & H3 & H4 & H5 & ->)%prepare_Ok.
destruct (filtered_train _ _ _ Hwfa H1 H2)
  as (Hwf2 & Hlen & Hi1 & Hi2 & Hc1 & Hc2 & Hdom).
fold (kept_rows a) in Hlen, Hi1, Hi2, Hc1, Hc2.
assert (∀ k, column_or_nan t2 k = train_part a k) as Htr by done.
destruct (unified_table _ _ _ _ Hwf2 Hwfb H3 H4) as (_ & _ & Hidx & Hcols).
assert (∀ k, (k = "ticket_id" ∨ k ∈ common_drop
              ∨ (columns t2 !! k = None ∧ columns b !! k = None))
             ↔ ¬ feature_label a b k) as Hlabel.
{ intros k. unfold feature_label. rewrite <-Hdom, <-!not_eq_None_Some.
  destruct (decide (k = "ticket_id")), (decide (k ∈ common_drop)),
    (columns t2 !! k), (columns b !! k); naive_solver. }
assert (∀ k, columns enc !! k
             = if decide (feature_label a b k)
               then Some (Values (feature_code a b k
                                    <$> (train_part a k ++ test_part b k)))
               else None) as Henc.
{ intros k. rewrite (encode_to_columns_lookup _ _ _ _ H5), Hcols.
  destruct (decide (feature_label a b k)) as [Hk|Hk].
  - rewrite decide_False by (by rewrite Hlabel; intros []).
    cbn [fmap option_fmap option_map]. rewrite Htr. do 2 f_equal.
    unfold feature_code, vocabulary, test_part.
    case_decide; [by rewrite <-list_fmap_compose|by rewrite list_fmap_id].
  - by rewrite decide_True by (by rewrite Hlabel). }
assert (∀ k, columns (to_columns df2) !! k
             = if decide (feature_label a b k)
               then Some (Values (train_part a k ++ test_part b k))
               else None) as Henc'.
{ intros k. rewrite lookup_to_columns, Hcols.
  destruct (decide (feature_label a b k)) as [Hk|Hk].
  - rewrite decide_False by (by rewrite Hlabel; intros []). by rewrite Htr.
  - by rewrite decide_True by (by rewrite Hlabel). }
split_and!.
- cbn [y_train]. f_equal; [done|].
  rewrite <-Hc1. unfold column_or_nan. by rewrite Hlab.
- cbn [X_train]. rewrite index_iloc, (encode_to_columns_index _ _ _ H5), Hidx, Htr.
  rewrite Hlen, <-(length_train_part a "ticket_id"). apply slice_head_app.
- cbn [X_test]. rewrite index_iloc, (encode_to_columns_index _ _ _ H5), Hidx, Htr.
  rewrite Hlen, <-(length_train_part a "ticket_id"). apply slice_tail_app.
- intros k. cbn [X_train]. rewrite lookup_iloc, Henc.
  case_decide; [|done]. cbn [fmap option_fmap option_map col_slice].
  rewrite slice_fmap_head; [done|]. by rewrite Hlen, length_train_part.
- intros k. cbn [X_test]. rewrite lookup_iloc, Henc.
  case_decide; [|done]. cbn [fmap option_fmap option_map col_slice].
  rewrite slice_fmap_tail; [done|]. by rewrite Hlen, length_train_part.
- intros k Hk. apply encode_Ok in H5 as (Hall & _ & _).
  specialize (Hall k Hk). rewrite Henc' in Hall.
  destruct (decide (feature_label a b k)); [done|by destruct Hall].
Qed.

End prepare_spec.

(** ** The concatenation and the cast to float64 *)

Lemma fmap_to_float64_safe (vs : list value) :
  Forall (λ v, float_safe_cell v = true) vs → to_float64 <$> vs = vs.
Proof.
induction 1 as [|v vs Hv _ IH]; [done|].
cbn [fmap list_fmap]. by rewrite (to_float64_safe v Hv), IH.
Qed.

Lemma float_safe_column_concat (a b : Frame (list value)) (k : string) :
  float_safe_column a k → float_safe_column b k →
  float_safe_column (concat a b) k.
Proof.
unfold float_safe_column, column_or_nan. rewrite lookup_concat.
intros Ha Hb.
destruct (columns a !! k), (columns b !! k); cbn [concat_column default] in *.
- by apply Forall_app.
- by apply Forall_app.
- by apply Forall_app.
- by apply Forall_replicate.
Qed.

(** On a column whose cells are float-safe in both tables the casts of the
    concatenation change nothing, whichever they are. *)
Lemma concat_casting_column ci casts (a b : Frame (list value)) (k : string) :
  float_safe_column a k → float_safe_column b k →
  columns (concat_casting ci casts a b) !! k = columns (concat a b) !! k.
Proof.
intros Ha Hb. pose proof (float_safe_column_concat a b k Ha Hb) as Hs.
unfold concat_casting, cast_frame. cbn [columns]. rewrite map_lookup_imap.
unfold float_safe_column, column_or_nan in Hs.
destruct (columns (concat a b) !! k) as [col|]; [|done].
cbn [default] in Hs. cbn [mbind option_bind].
unfold cast_if. destruct (casts k); [|done]. by rewrite fmap_to_float64_safe.
Qed.


(** The filter and the first pruning keep a column float-safe. *)
Lemma float_safe_column_pruned (a t1 t2 : Frame (list value)) (k : string) :
  wf a → float_safe_column a k →
  compliance_filter a = Ok t1 → drop train_drop t1 = Ok t2 →
  float_safe_column t2 k.
Proof.
intros Hwf Hs H1 H2.
destruct (filtered_train a t1 t2 Hwf H1 H2) as (_ & _ & _ & _ & _ & Hcol & _).
unfold float_safe_column in *. rewrite Hcol.
case_decide; [by apply Forall_replicate|].
rewrite <-(cell_rows a k Hwf) in Hs.
rewrite Forall_fmap in Hs. rewrite Forall_fmap.
eapply Forall_forall. intros r [_ Hr]%list_elem_of_filter.
by eapply Forall_forall in Hs.
Qed.



Lemma unified_column_cast_free ci casts (a b t1 t2 : Frame (list value)) k :
  wf a → float_safe_column a k → float_safe_column b k →
  compliance_filter a = Ok t1 → drop train_drop t1 = Ok t2 →
  columns (concat_casting ci casts t2 b) !! k = columns (concat t2 b) !! k.
Proof.
intros Hwf Ha Hb H1 H2. apply concat_casting_column; [|done].
by eapply float_safe_column_pruned.
Qed.

(** Beyond 2^53 a cast shows: two training cells become one. *)
Example cast_merges_cells :
  let a := frame_of [Int 0; Int 1]
             [("judgment_amount", [Int (2 ^ 53 + 1); Int (2 ^ 53)])] in
  let b := frame_of [Int 0] [("judgment_amount", [NaN])] in
  columns (concat a b) !! "judgment_amount"
  = Some [Int (2 ^ 53 + 1); Int (2 ^ 53); NaN]
  ∧ columns (concat_casting false (λ _, true) a b) !! "judgment_amount"
    = Some [Int (2 ^ 53); Int (2 ^ 53); NaN].
Proof. split; vm_compute; reflexivity. Qed.

(** And so do their codes: apart before the cast, one category after. *)
Example cast_merges_codes :
  let col := [Int (2 ^ 53 + 1); Int (2 ^ 53); NaN] in
  codes (factorize col) = [1; 0; -1]%Z
  ∧ codes (factorize (cast_if true col)) = [0; 0; -1]%Z.
Proof. split; vm_compute; reflexivity. Qed.

(** ** The run with the casts of the concatenation *)


Lemma cast_if_safe c (col : list value) :
  Forall (λ v, float_safe_cell v = true) col → cast_if c col = col.
Proof. unfold cast_if. destruct c; [apply fmap_to_float64_safe|done]. Qed.

Lemma cast_if_app c (l1 l2 : list value) :
  cast_if c (l1 ++ l2) = cast_if c l1 ++ cast_if c l2.
Proof. unfold cast_if. destruct c; [apply fmap_app|done]. Qed.

Lemma slice_cast_if c start stop (col : list value) :
  slice start stop (cast_if c col) = cast_if c (slice start stop col).
Proof. unfold cast_if. destruct c; [apply slice_fmap|done]. Qed.

Lemma lookup_cast_frame ci casts (df : Frame (list value)) k :
  columns (cast_frame ci casts df) !! k = cast_if (casts k) <$> columns df !! k.
Proof.
unfold cast_frame. cbn [columns]. rewrite map_lookup_imap.
by destruct (columns df !! k).
Qed.



Lemma missing_label_cast_frame ci casts labels (df : Frame (list value)) :
  missing_label labels (cast_frame ci casts df) = missing_label labels df.
Proof.
unfold missing_label. induction labels as [|l labels IH]; [done|].
cbn [list_find]. rewrite lookup_cast_frame.
destruct (decide (cast_if (casts l) <$> columns df !! l = None)) as [H|H],
         (decide (columns df !! l = None)) as [H'|H']; [done| | |].
- by apply fmap_None in H.
- by rewrite H' in H.
- revert IH. destruct (list_find _ labels), (list_find _ labels); simpl;
    congruence.
Qed.

Lemma drop_cast_frame ci casts labels (df df' : Frame (list value)) :
  drop labels (cast_frame ci casts df) = Ok df'
  ↔ ∃ d, drop labels df = Ok d ∧ df' = cast_frame ci casts d.
Proof.
unfold drop. rewrite missing_label_cast_frame.
destruct (missing_label labels df); [split; [done|by intros (? & ? & ?)]|].
assert ({| index := index (cast_frame ci casts df);
           columns := foldr delete (columns (cast_frame ci casts df)) labels |}
        = cast_frame ci casts
            {| index := index df;
               columns := foldr delete (columns df) labels |}) as ->.
{ apply frame_eq; [done|]. intros k. cbn [columns].
  rewrite lookup_cast_frame. cbn [columns].
  rewrite !lookup_foldr_delete, lookup_cast_frame. by case_decide. }
split; [intros [= <-]; eauto|by intros (d & [= <-] & ->)].
Qed.

Lemma set_index_cast_frame ci casts l (df df' : Frame (list value)) :
  set_index l (cast_frame ci casts df) = Ok df'
  ↔ ∃ d, set_index l df = Ok d ∧ df' = cast_frame (casts l) casts d.
Proof.
rewrite set_index_Ok. setoid_rewrite set_index_Ok.
rewrite lookup_cast_frame. split.
- intros (col & Hcol & ->).
  destruct (columns df !! l) as [col'|] eqn:Hl; [|done].
  injection Hcol as <-. eexists. split; [by eexists|].
  apply frame_eq; [done|]. intros k. cbn [columns].
  rewrite lookup_cast_frame. cbn [columns].
  rewrite !lookup_delete, lookup_cast_frame. by case_decide.
- intros (d & (col & Hcol & ->) & ->). rewrite Hcol.
  eexists. split; [done|].
  apply frame_eq; [done|]. intros k. cbn [columns].
  rewrite lookup_cast_frame. cbn [columns].
  rewrite !lookup_delete, lookup_cast_frame. by case_decide.
Qed.

Lemma display_uniques_cast_frame ci casts (df : Frame (list value)) :
  display_uniques (cast_frame ci casts df) = display_uniques df.
Proof.
unfold display_uniques, getitem. rewrite !lookup_cast_frame.
destruct (columns df !! "agency_name"); [|done].
destruct (columns df !! "inspector_name"); [|done].
destruct (columns df !! "violation_code"); [|done].
destruct (columns df !! "disposition"); [|done].
by destruct (columns df !! "clean_up_cost").
Qed.

Lemma encode_cast_frame ci casts cols (d : Frame (list value)) enc' :
  encode cols (to_columns (cast_frame ci casts d)) = Ok enc' →
  ∃ enc, encode cols (to_columns d) = Ok enc.
Proof.
intros (Hin & _ & _)%encode_Ok. apply encode_total. intros c Hc.
specialize (Hin c Hc). rewrite lookup_to_columns, lookup_cast_frame in Hin.
rewrite lookup_to_columns. by destruct (columns d !! c).
Qed.

(** The stages a successful run with casts went through: those of the
    run without, each table cast. *)
Lemma prepare_casting_Ok ci casts (a b : Frame (list value)) p' :
  prepare_casting ci casts a b = Ok p' →
  ∃ t1 lab t2 df1 df2 enc enc',
    compliance_filter a = Ok t1
    ∧ columns t1 !! "compliance" = Some lab
    ∧ drop train_drop t1 = Ok t2
    ∧ drop common_drop (concat t2 b) = Ok df1
    ∧ set_index "ticket_id" df1 = Ok df2
    ∧ encode cat_columns (to_columns df2) = Ok enc
    ∧ encode cat_columns
        (to_columns (cast_frame (casts "ticket_id") casts df2)) = Ok enc'
    ∧ prepare a b
      = Ok {| X_train := iloc 0 (Some (len t2)) enc;
              y_train := {| s_index := index t1; s_values := lab |};
              X_test := iloc (len t2) None enc |}
    ∧ p' = {| X_train := iloc 0 (Some (len t2)) enc';
              y_train := {| s_index := index t1; s_values := lab |};
              X_test := iloc (len t2) None enc' |}.
Proof.
unfold prepare_casting, prepare, concat_casting.
destruct (compliance_filter a) as [t1|] eqn:H1; cbn [mbind result_bind]; [|done].
unfold getitem_series, getitem.
destruct (columns t1 !! "compliance") as [lab|] eqn:Hlab;
  cbn [mbind result_bind]; [|done].
destruct (drop train_drop t1) as [t2|] eqn:H2; cbn [mbind result_bind]; [|done].
rewrite display_uniques_cast_frame.
destruct (display_uniques (concat t2 b)) as [[]|] eqn:Hd;
  cbn [mbind result_bind]; [|done].
destruct (drop common_drop (cast_frame ci casts (concat t2 b)))
  as [df1'|] eqn:H3'; cbn [mbind result_bind]; [|done].
apply drop_cast_frame in H3' as (df1 & H3 & ->). rewrite H3.
cbn [mbind result_bind].
destruct (set_index "ticket_id" (cast_frame ci casts df1))
  as [df2'|] eqn:H4'; cbn [mbind result_bind]; [|done].
apply set_index_cast_frame in H4' as (df2 & H4 & ->). rewrite H4.
cbn [mbind result_bind].
destruct (encode cat_columns
            (to_columns (cast_frame (casts "ticket_id") casts df2)))
  as [enc'|] eqn:H5'; cbn [mbind result_bind]; [|done].
destruct (encode_cast_frame _ _ _ _ _ H5') as [enc H5]. rewrite H5.
cbn [mbind result_bind].
intros [= <-]. by exists t1, lab, t2, df1, df2, enc, enc'.
Qed.

(** The run with casts against the run without: it raises nothing only
    if that one raises nothing, and then gives the same labels, the row
    labels of that one cast with the ticket column, and, in every column
    that is float-safe in both files, the same cells. *)
Lemma prepare_casting_exact ci casts (a b : Frame (list value)) p' :
  wf a → wf b →
  prepare_casting ci casts a b = Ok p' →
  ∃ p, prepare a b = Ok p
    ∧ y_train p' = y_train p
    ∧ index (X_train p') = cast_if (casts "ticket_id") (index (X_train p))
    ∧ index (X_test p') = cast_if (casts "ticket_id") (index (X_test p))
    ∧ (∀ k, is_Some (columns (X_train p') !! k)
            ↔ is_Some (columns (X_train p) !! k))
    ∧ (∀ k, is_Some (columns (X_test p') !! k)
            ↔ is_Some (columns (X_test p) !! k))
    ∧ (∀ k, float_safe_column a k → float_safe_column b k →
            columns (X_train p') !! k = columns (X_train p) !! k
            ∧ columns (X_test p') !! k = columns (X_test p) !! k).
Proof.
intros Hwfa Hwfb
  (t1 & lab & t2 & df1 & df2 & enc & enc'
   & H1 & Hlab & H2 & H3 & H4 & H5 & H5' & Hp & ->)%prepare_casting_Ok.
eexists. split; [exact Hp|]. cbn [X_train X_test y_train].
pose proof (encode_to_columns_index _ _ _ H5) as Hi.
pose proof (encode_to_columns_index _ _ _ H5') as Hi'.
assert (∀ k, is_Some (columns enc' !! k) ↔ is_Some (columns enc !! k)) as Hdom.
{ intros k. rewrite (encode_to_columns_lookup _ _ _ k H5),
    (encode_to_columns_lookup _ _ _ k H5'), lookup_cast_frame.
  rewrite !fmap_is_Some. done. }
assert (∀ k, float_safe_column a k → float_safe_column b k →
             columns enc' !! k = columns enc !! k) as Hcol.
{ intros k Ha Hb.
  rewrite (encode_to_columns_lookup _ _ _ k H5),
    (encode_to_columns_lookup _ _ _ k H5'), lookup_cast_frame.
  destruct (filtered_train _ _ _ Hwfa H1 H2) as (Hwf2 & _).
  destruct (unified_table _ _ _ _ Hwf2 Hwfb H3 H4) as (_ & _ & _ & Hcols).
  rewrite Hcols.
  destruct (decide (k = "ticket_id" ∨ k ∈ common_drop
                    ∨ columns t2 !! k = None ∧ columns b !! k = None));
    [done|].
  cbn [fmap option_fmap option_map].
  rewrite cast_if_safe; [done|].
  apply Forall_app. split; [|exact Hb].
  exact (float_safe_column_pruned a t1 t2 k Hwfa Ha H1 H2). }
split_and!.
- done.
- rewrite !index_iloc, Hi, Hi'. cbn [cast_frame index].
  apply slice_cast_if.
- rewrite !index_iloc, Hi, Hi'. cbn [cast_frame index].
  apply slice_cast_if.
- intros k. rewrite !lookup_iloc, !fmap_is_Some. apply Hdom.
- intros k. rewrite !lookup_iloc, !fmap_is_Some. apply Hdom.
- intros k Ha Hb. rewrite !lookup_iloc, (Hcol k Ha Hb). done.
Qed.


(** ** Codes and categories *)

Section code_facts.
Implicit Types (v w : value) (vs : list value).

Lemma isnull_true v : isnull v = true ↔ v = NaN.
Proof. destruct v; naive_solver. Qed.

Lemma code_of_missing vs v :
  isnull v = true → code_of (categories (factorize vs)) v = (-1)%Z.
Proof. unfold code_of. by intros ->. Qed.

Lemma code_of_range vs v :
  v ∈ vs → isnull v = false →
  (0 ≤ code_of (categories (factorize vs)) v
   < Z.of_nat (length (categories (factorize vs))))%Z.
Proof.
intros Hin Hv. destruct (code_of_present vs v Hin Hv) as (i & -> & Hi).
apply lookup_lt_Some in Hi. lia.
Qed.

(** Two cells of a column get the same code exactly when they hold the
    same value. *)
Lemma code_of_inj vs v w :
  v ∈ vs → w ∈ vs →
  code_of (categories (factorize vs)) v = code_of (categories (factorize vs)) w →
  v = w.
Proof.
intros Hv Hw Heq.
destruct (isnull v) eqn:Nv, (isnull w) eqn:Nw.
- apply isnull_true in Nv, Nw. congruence.
- rewrite (code_of_missing vs v Nv) in Heq.
  pose proof (code_of_range vs w Hw Nw). lia.
- rewrite (code_of_missing vs w Nw) in Heq.
  pose proof (code_of_range vs v Hv Nv). lia.
- destruct (code_of_present vs v Hv Nv) as (i & Hi & Hci).
  destruct (code_of_present vs w Hw Nw) as (j & Hj & Hcj).
  assert (i = j) as -> by lia. congruence.
Qed.


Lemma code_decode vs (z : Z) :
  (0 ≤ z < Z.of_nat (length (categories (factorize vs))))%Z →
  code_of (categories (factorize vs)) (decode (factorize vs) z) = z
  ∧ decode (factorize vs) z ∈ vs
  ∧ isnull (decode (factorize vs) z) = false.
Proof.
intros Hz. unfold decode. rewrite decide_False by lia.
destruct (lookup_lt_is_Some_2 (categories (factorize vs)) (Z.to_nat z))
  as [v Hv]; [lia|].
rewrite Hv. change (default NaN (Some v)) with v.
rewrite (code_of_category vs _ v Hv).
apply list_elem_of_lookup_2, elem_of_categories in Hv as [? ?].
split_and!; [lia|done|done].
Qed.


(** The categories depend on the set of values of the column only, not on
    the order or the number of their occurrences. *)
Lemma categories_stable vs vs' :
  (∀ v, v ∈ vs ↔ v ∈ vs') →
  categories (factorize vs) = categories (factorize vs').
Proof.
intros Hsame. apply (StronglySorted_unique value_le).
- apply categories_sorted.
- apply categories_sorted.
- apply NoDup_Permutation; [apply NoDup_categories..|].
  intros v. rewrite !elem_of_categories, Hsame. done.
Qed.

End code_facts.

(** ** Categorical encoder *)

(** C4.  For a column named for encoding, the encoder lists the distinct
    non-missing values of the column without repetition and in increasing
    order (an order that depends on the set of values only), gives each of
    them its position in that list as code, counting from 0, and replaces
    every cell by the code of its value; the column "A", "B", "A" gets the
    codes 0, 1, 0. *)
Theorem encoder_enumerates_distinct_values
    (cols : list string) (df : Frame (list value)) (enc : Frame column)
    (k : string) (vs : list value) :
  encode cols (to_columns df) = Ok enc →
  k ∈ cols →
  columns df !! k = Some vs →
  let cats := categories (factorize vs) in
  columns enc !! k = Some (Values ((λ v, Int (code_of cats v)) <$> vs))
  ∧ NoDup cats
  ∧ (∀ v, v ∈ cats ↔ v ∈ vs ∧ isnull v = false)
  ∧ (∀ i j x y, cats !! i = Some x → cats !! j = Some y → i < j → value_lt x y)
  ∧ (∀ vs', (∀ v, v ∈ vs ↔ v ∈ vs') → categories (factorize vs') = cats)
  ∧ (∀ i v, cats !! i = Some v
            ↔ v ∈ vs ∧ isnull v = false ∧ code_of cats v = Z.of_nat i)
  ∧ codes (factorize A_B_A) = [0; 1; 0]%Z.
Proof.
intros Henc Hk Hvs cats. split_and!.
- rewrite (encode_to_columns_lookup _ _ _ _ Henc), Hvs. simpl.
  rewrite decide_True by done. by rewrite <-list_fmap_compose.
- apply NoDup_categories.
- apply elem_of_categories.
- apply categories_increasing.
- intros vs' Hsame. symmetry. by apply categories_stable.
- intros i v. split.
  + intros Hi. pose proof (code_of_category vs i v Hi) as Hc.
    apply list_elem_of_lookup_2, elem_of_categories in Hi as [? ?]. done.
  + intros (Hin & Hv & Hc).
    destruct (code_of_present vs v Hin Hv) as (j & Hj & Hcj).
    fold cats in Hj. assert (i = j) as -> by lia. done.
- done.
Qed.

Lemma encoder_enumerates_distinct_values_witness :
  ∃ enc, encode ["grade"] (to_columns ex_ABA) = Ok enc
         ∧ columns enc !! "grade"
           = Some (Values ((λ v, Int (code_of [Str "A"; Str "B"] v)) <$> A_B_A)).
Proof.
eexists. split; [vm_compute; reflexivity|].
refine (proj1 (encoder_enumerates_distinct_values
                 ["grade"] ex_ABA _ "grade" A_B_A _ _ _)).
- vm_compute. reflexivity.
- apply list_elem_of_here.
- vm_compute. reflexivity.
Defined.

Example factorize_A_B_A :
  factorize A_B_A = {| categories := [Str "A"; Str "B"]; codes := [0; 1; 0]%Z |}.
Proof. vm_compute. reflexivity. Qed.

(** The codes do follow the order of the values, not of the rows. *)
Example factorize_B_A_B :
  factorize [Str "B"; Str "A"; Str "B"]
  = {| categories := [Str "A"; Str "B"]; codes := [1; 0; 1]%Z |}.
Proof. vm_compute. reflexivity. Qed.



(** C7.  In a column named for encoding, a missing cell becomes the code
    -1 and a cell that holds a value becomes a non-negative code (below
    the number of categories); so a code is -1 exactly on the missing
    cells. *)
Theorem missing_value_code
    (cols : list string) (df : Frame (list value)) (enc : Frame column)
    (k : string) (vs : list value) :
  encode cols (to_columns df) = Ok enc →
  k ∈ cols →
  columns df !! k = Some vs →
  ∃ zs, columns enc !! k = Some (Values (Int <$> zs))
        ∧ length zs = length vs
        ∧ ∀ i v z, vs !! i = Some v → zs !! i = Some z →
                   (isnull v = true → z = (-1)%Z)
                   ∧ (isnull v = false →
                      (0 ≤ z < Z.of_nat (length (categories (factorize vs))))%Z).
Proof.
intros Henc Hk Hvs. exists (codes (factorize vs)). split_and!.
- rewrite (encode_to_columns_lookup _ _ _ _ Henc), Hvs. simpl.
  by rewrite decide_True.
- apply length_codes_factorize.
- intros i v z Hv. rewrite codes_factorize, list_lookup_fmap, Hv. simpl.
  intros [= <-]. split.
  + apply code_of_missing.
  + apply code_of_range. by eapply list_elem_of_lookup_2.
Qed.

Lemma missing_value_code_witness :
  ∃ enc, encode cat_columns (to_columns ex_test) = Ok enc
  ∧ ∃ zs, columns enc !! "agency_name" = Some (Values (Int <$> zs))
        ∧ length zs = length [Str "A"; Str "D"; NaN]
        ∧ ∀ i v z, [Str "A"; Str "D"; NaN] !! i = Some v → zs !! i = Some z →
                   (isnull v = true → z = (-1)%Z)
                   ∧ (isnull v = false →
                      (0 ≤ z < Z.of_nat (length (categories
                                 (factorize [Str "A"; Str "D"; NaN]))))%Z).
Proof.
eexists. split; [vm_compute; reflexivity|].
apply (missing_value_code cat_columns ex_test _ "agency_name").
- vm_compute. reflexivity.
- apply list_elem_of_here.
- vm_compute. reflexivity.
Defined.

(** The scenario: the agency of the third evaluation row is missing. *)
Example missing_value_code_scenario :
  codes (factorize [Str "A"; Str "D"; NaN]) = [0; 1; -1]%Z.
Proof. vm_compute. reflexivity. Qed.

(** ** Splitter *)

Section split_facts.
Implicit Types (a b df : Frame (list value)) (enc : Frame column).




Lemma len_iloc_tail (n : nat) enc : len (iloc n None enc) = len enc - n.
Proof. unfold len, iloc, slice. cbn [index]. apply length_drop. Qed.

(** Stacking the two slices of a frame of plain columns gives the frame
    back. *)
Lemma restack_iloc (n : nat) enc :
  (∀ k x, columns enc !! k = Some x → ∃ vs, x = Values vs) →
  to_columns (concat (to_values (iloc 0 (Some n) enc))
                     (to_values (iloc n None enc))) = enc.
Proof.
intros Hplain. apply frame_eq.
- unfold to_columns, concat, to_values. simpl. apply slice_head_tail.
- intros k. rewrite lookup_to_columns, lookup_concat.
  unfold to_values. simpl. rewrite !lookup_fmap.
  destruct (columns enc !! k) as [x|] eqn:Hk; simpl; [|done].
  destruct (Hplain k x Hk) as [vs ->]. simpl.
  by rewrite Nat.sub_0_r, drop_0, take_drop.
Qed.

End split_facts.





Lemma wf_ex_train : wf ex_train.
Proof. apply (bool_decide_unpack _). vm_compute. exact I. Qed.

Lemma wf_ex_test : wf ex_test.
Proof. apply (bool_decide_unpack _). vm_compute. exact I. Qed.


Lemma float_safe_ex_train : float_safe ex_train.
Proof. apply (bool_decide_unpack _). vm_compute. exact I. Qed.

Lemma float_safe_ex_test : float_safe ex_test.
Proof. apply (bool_decide_unpack _). vm_compute. exact I. Qed.



(** The scenario: four training rows and three evaluation rows, with their
    ticket numbers as row labels. *)
Example split_scenario :
  index (iloc 0 (Some (len ex_pruned)) ex_enc)
  = [Int 22056; Int 22062; Int 22084; Int 22046]
  ∧ index (iloc (len ex_pruned) None ex_enc)
    = [Int 285362; Int 285361; Int 285338].
Proof. split; vm_compute; reflexivity. Qed.

(** ** Shared vocabulary and label alignment *)

Lemma Int_inj (z z' : Z) : Int z = Int z' → z = z'.
Proof. unfold Int, Qc_of_Z. by intros [= ?]. Qed.


Lemma cat_columns_not_dropped k : k ∈ cat_columns → k ∉ train_drop.
Proof.
intros Hk Hd. revert Hk.
repeat (apply elem_of_cons in Hd as [->|Hd];
        [by apply (bool_decide_unpack _); vm_compute|]).
by apply elem_of_nil in Hd.
Qed.

Lemma train_part_kept a k :
  k ∉ train_drop → train_part a k = cell k <$> kept_rows a.
Proof. intros Hk. unfold train_part. by rewrite decide_False. Qed.

(** The vocabulary of a column named for encoding, in the run without
    casts. *)
Lemma vocabulary_cells_exact
    (a b : Frame (list value)) (p : Prepared) (k : string) :
  wf a → wf b →
  prepare a b = Ok p →
  k ∈ cat_columns →
  let V := vocabulary a b k in
  let tr := cell k <$> kept_rows a in
  let te := cell k <$> rows b in
  V = categories (factorize (tr ++ te))
  ∧ columns (X_train p) !! k = Some (Values ((λ v, Int (code_of V v)) <$> tr))
  ∧ columns (X_test p) !! k = Some (Values ((λ v, Int (code_of V v)) <$> te))
  ∧ (∀ v, v ∈ V ↔ (v ∈ tr ∨ v ∈ te) ∧ isnull v = false)
  ∧ (∀ v w, v ∈ tr ∨ v ∈ te → w ∈ tr ∨ w ∈ te →
            (Int (code_of V v) = Int (code_of V w) ↔ v = w))
  ∧ (∀ a' b' p', wf a' → wf b' → prepare a' b' = Ok p' →
       cell k <$> kept_rows a' = tr → cell k <$> rows b' = te →
       columns (X_train p') !! k = columns (X_train p) !! k
       ∧ columns (X_test p') !! k = columns (X_test p) !! k).
Proof.
intros Hwfa Hwfb Hp Hk V tr te.
assert (∀ a0 b0 p0, wf a0 → wf b0 → prepare a0 b0 = Ok p0 →
          columns (X_train p0) !! k
          = Some (Values ((λ v, Int (code_of
                     (categories (factorize ((cell k <$> kept_rows a0)
                                             ++ (cell k <$> rows b0)))) v))
                          <$> (cell k <$> kept_rows a0)))
          ∧ columns (X_test p0) !! k
            = Some (Values ((λ v, Int (code_of
                     (categories (factorize ((cell k <$> kept_rows a0)
                                             ++ (cell k <$> rows b0)))) v))
                            <$> (cell k <$> rows b0)))) as Hgen.
{ intros a0 b0 p0 Ha0 Hb0 Hp0.
  destruct (prepare_spec _ _ _ Ha0 Hb0 Hp0) as (_ & _ & _ & Htr & Hte & Hlab).
  rewrite Htr, Hte. destruct (decide (feature_label a0 b0 k)); [|by destruct n; auto].
  unfold feature_code, vocabulary, test_part.
  destruct (decide (k ∈ cat_columns)); [|done].
  rewrite (train_part_kept a0 k) by (by apply cat_columns_not_dropped).
  by rewrite (cell_rows b0 k Hb0). }
assert (V = categories (factorize (tr ++ te))) as HV.
{ unfold V, tr, te, vocabulary, test_part.
  rewrite (train_part_kept a k) by (by apply cat_columns_not_dropped).
  by rewrite (cell_rows b k Hwfb). }
destruct (Hgen a b p Hwfa Hwfb Hp) as [Htr Hte].
split_and!; [done|by rewrite HV|by rewrite HV| | |].
- intros v. rewrite HV, elem_of_categories, elem_of_app. done.
- intros v w Hv Hw. rewrite HV. split; [|by intros ->].
  intros Heq%Int_inj. apply (code_of_inj (tr ++ te)); [| |done];
    by apply elem_of_app.
- intros a' b' p' Ha' Hb' Hp' Htr' Hte'.
  destruct (Hgen a' b' p' Ha' Hb' Hp') as [-> ->].
  by rewrite Htr, Hte, Htr', Hte'.
Qed.

(** C2.  For a column named for encoding that is float-safe in both
    files (no whole number beyond 2^53; texts are always so), whichever
    casts the concatenation makes: one vocabulary is
    built from the cells of the kept training rows followed by the cells
    of the evaluation rows; both feature tables are encoded with it, so
    two cells, wherever they are, get the same code exactly when they
    hold the same value; and the encoding of the column depends on the
    cells of that column only. *)
Theorem shared_vocabulary
    (ci : bool) (casts : string → bool)
    (a b : Frame (list value)) (p : Prepared) (k : string) :
  wf a → wf b →
  float_safe_column a k → float_safe_column b k →
  prepare_casting ci casts a b = Ok p →
  k ∈ cat_columns →
  let V := vocabulary a b k in
  let tr := cell k <$> kept_rows a in
  let te := cell k <$> rows b in
  V = categories (factorize (tr ++ te))
  ∧ columns (X_train p) !! k = Some (Values ((λ v, Int (code_of V v)) <$> tr))
  ∧ columns (X_test p) !! k = Some (Values ((λ v, Int (code_of V v)) <$> te))
  ∧ (∀ v, v ∈ V ↔ (v ∈ tr ∨ v ∈ te) ∧ isnull v = false)
  ∧ (∀ v w, v ∈ tr ∨ v ∈ te → w ∈ tr ∨ w ∈ te →
            (Int (code_of V v) = Int (code_of V w) ↔ v = w))
  ∧ (∀ ci' casts' a' b' p', wf a' → wf b' →
       float_safe_column a' k → float_safe_column b' k →
       prepare_casting ci' casts' a' b' = Ok p' →
       cell k <$> kept_rows a' = tr → cell k <$> rows b' = te →
       columns (X_train p') !! k = columns (X_train p) !! k
       ∧ columns (X_test p') !! k = columns (X_test p) !! k).
Proof.
intros Hwfa Hwfb Hsa Hsb Hp Hk V tr te.
destruct (prepare_casting_exact _ _ _ _ _ Hwfa Hwfb Hp)
  as (p0 & Hp0 & _ & _ & _ & _ & _ & Hcol).
destruct (Hcol k Hsa Hsb) as [Hc1 Hc2].
destruct (vocabulary_cells_exact a b p0 k Hwfa Hwfb Hp0 Hk)
  as (HV & Htr & Hte & Hin & Hinj & Hdep).
fold V tr te in HV, Htr, Hte, Hin, Hinj, Hdep.
split; [exact HV|]. split; [by rewrite Hc1|]. split; [by rewrite Hc2|].
split; [exact Hin|]. split; [exact Hinj|].
intros ci' casts' a' b' p' Hwfa' Hwfb' Hsa' Hsb' Hp' Htr' Hte'.
destruct (prepare_casting_exact _ _ _ _ _ Hwfa' Hwfb' Hp')
  as (p0' & Hp0' & _ & _ & _ & _ & _ & Hcol').
destruct (Hcol' k Hsa' Hsb') as [-> ->]. rewrite Hc1, Hc2.
exact (Hdep a' b' p0' Hwfa' Hwfb' Hp0' Htr' Hte').
Qed.

Lemma shared_vocabulary_witness :
  prepare_casting false (λ _, true) ex_train ex_test = Ok ex_prepared
  ∧ vocabulary ex_train ex_test "agency_name"
    = categories (factorize ((cell "agency_name" <$> kept_rows ex_train)
                             ++ (cell "agency_name" <$> rows ex_test)))
  ∧ columns (X_train ex_prepared) !! "agency_name"
    = Some (Values ((λ v, Int (code_of
                       (vocabulary ex_train ex_test "agency_name") v))
                    <$> (cell "agency_name" <$> kept_rows ex_train)))
  ∧ columns (X_test ex_prepared) !! "agency_name"
    = Some (Values ((λ v, Int (code_of
                       (vocabulary ex_train ex_test "agency_name") v))
                    <$> (cell "agency_name" <$> rows ex_test))).
Proof.
assert (prepare_casting false (λ _, true) ex_train ex_test = Ok ex_prepared)
  as Hp by (vm_compute; reflexivity).
destruct (shared_vocabulary false (λ _, true)
            ex_train ex_test ex_prepared "agency_name"
            wf_ex_train wf_ex_test
            (float_safe_column_of _ _ float_safe_ex_train)
            (float_safe_column_of _ _ float_safe_ex_test)
            Hp ltac:(apply list_elem_of_here))
  as (HV & Htr & Hte & _).
split_and!; [exact Hp|exact HV|exact Htr|exact Hte].
Defined.

(** The scenario: agency "B" occurs in training rows only and "D" in an
    evaluation row only; "A" has the code 0 in both tables. *)
Example shared_vocabulary_scenario :
  vocabulary ex_train ex_test "agency_name" = [Str "A"; Str "B"; Str "D"]
  ∧ columns (X_train ex_prepared) !! "agency_name"
    = Some (Values (Int <$> [1; 0; -1; 1]%Z))
  ∧ columns (X_test ex_prepared) !! "agency_name"
    = Some (Values (Int <$> [0; 2; -1]%Z)).
Proof. split_and!; vm_compute; reflexivity. Qed.




(** The scenario: the four labels and the four ticket numbers they belong
    to (rows 1 and 4 of the file are gone). *)
Example labels_scenario :
  s_values (y_train ex_prepared) = [Num 0%Qc; Num 1%Qc; Num 1%Qc; Num 0%Qc]
  ∧ s_index (y_train ex_prepared) = [Int 0; Int 2; Int 3; Int 5]
  ∧ index (X_train ex_prepared) = [Int 22056; Int 22062; Int 22084; Int 22046].
Proof. split_and!; vm_compute; reflexivity. Qed.

(** ** Predictor/formatter *)

(** The evaluation-features table is labelled by the ticket numbers of the
    evaluation file, in the order of the file. *)
Lemma test_identifiers (a b : Frame (list value)) (p : Prepared) :
  wf a → wf b → prepare a b = Ok p →
  index (X_test p) = cell "ticket_id" <$> rows b ∧ len (X_test p) = len b.
Proof.
intros Hwfa Hwfb Hp.
destruct (prepare_spec _ _ _ Hwfa Hwfb Hp) as (_ & _ & Hidx & _).
unfold test_part in Hidx. rewrite <-cell_rows in Hidx by done.
split; [done|]. unfold len at 1. by rewrite Hidx, length_fmap, length_rows.
Qed.

(** C6.  Whatever class probabilities the fitted model returns, one pair
    per evaluation row, the answer has one entry per evaluation row; the
    identifier at each position is the label of the evaluation-features
    row at that position and the value is the second (positive-class)
    probability of the pair at that position. *)
Theorem answer_follows_test_rows {P : Type}
    (proba : list (P * P)) (X : Frame column) :
  length proba = len X →
  ∃ ans, format_answer proba X = Ok ans
         ∧ length ans = len X
         ∧ fst <$> ans = index X
         ∧ snd <$> ans = snd <$> proba
         ∧ ∀ i id pr, ans !! i = Some (id, pr) →
                      index X !! i = Some id
                      ∧ snd <$> proba !! i = Some pr.
Proof.
intros Hlen. unfold format_answer, make_series.
rewrite decide_True by (by rewrite length_fmap).
eexists. split; [done|].
assert (length (index X) = length (snd <$> proba)) as Hlen'
  by (by rewrite length_fmap).
split_and!.
- rewrite length_zip, <-Hlen'. unfold len. lia.
- apply fst_zip. lia.
- apply snd_zip. lia.
- intros i id pr [Hid Hpr]%lookup_zip_Some. split; [done|].
  by rewrite list_lookup_fmap in Hpr.
Qed.

Lemma answer_follows_test_rows_witness :
  length ex_proba = len (X_test ex_prepared)
  ∧ ∃ ans, format_answer ex_proba (X_test ex_prepared) = Ok ans
           ∧ length ans = len (X_test ex_prepared)
           ∧ fst <$> ans = index (X_test ex_prepared)
           ∧ snd <$> ans = snd <$> ex_proba
           ∧ ∀ i id pr, ans !! i = Some (id, pr) →
                        index (X_test ex_prepared) !! i = Some id
                        ∧ snd <$> ex_proba !! i = Some pr.
Proof.
assert (length ex_proba = len (X_test ex_prepared)) as Hlen
  by (vm_compute; reflexivity).
split; [exact Hlen|].
exact (answer_follows_test_rows ex_proba (X_test ex_prepared) Hlen).
Defined.

(** The scenario: identifiers 285362, 285361, 285338 in that order. *)
Example answer_scenario :
  format_answer ex_proba (X_test ex_prepared)
  = Ok [(Int 285362, 2); (Int 285361, 5); (Int 285338, 75)].
Proof. vm_compute. reflexivity. Qed.

(** When the model returns another number of rows, no answer is built. *)
Lemma format_answer_length_mismatch {P : Type}
    (proba : list (P * P)) (X : Frame column) :
  length proba ≠ len X → format_answer proba X = Raise ValueError.
Proof.
intros Hlen. unfold format_answer, make_series.
rewrite decide_False; [done|]. by rewrite length_fmap.
Qed.

(** ** When the run raises nothing *)

Section prepare_total.
Implicit Types (a b : Frame (list value)).

Lemma compliance_filter_Ok a t1 :
  compliance_filter a = Ok t1 →
  is_Some (columns a !! "compliance")
  ∧ ∀ k, is_Some (columns t1 !! k) ↔ is_Some (columns a !! k).
Proof.
unfold compliance_filter, getitem_series, getitem.
destruct (columns a !! "compliance") as [vs|]; simpl; [|done].
intros [= <-]. split; [eauto|]. intros k. cbn [columns getitem_mask].
by rewrite lookup_fmap, fmap_is_Some.
Qed.

Lemma compliance_filter_total a :
  is_Some (columns a !! "compliance") → ∃ t1, compliance_filter a = Ok t1.
Proof.
intros [vs Hvs]. unfold compliance_filter, getitem_series, getitem.
rewrite Hvs. simpl. eauto.
Qed.

Lemma is_Some_lookup_concat a b k :
  is_Some (columns (concat a b) !! k)
  ↔ is_Some (columns a !! k) ∨ is_Some (columns b !! k).
Proof.
rewrite lookup_concat.
destruct (columns a !! k), (columns b !! k); simpl;
  rewrite ?is_Some_alt; naive_solver.
Qed.

Lemma display_uniques_total a :
  (∀ l, l ∈ common_drop ++ "ticket_id" :: cat_columns →
        is_Some (columns a !! l)) →
  display_uniques a = Ok ().
Proof.
intros Hall. unfold display_uniques, getitem.
repeat (match goal with
        | |- context [columns a !! ?k] =>
            let H := fresh in
            destruct (Hall k) as [? H];
            [by apply (bool_decide_unpack _); vm_compute|rewrite H; simpl]
        end).
done.
Qed.

Lemma ticket_id_not_common : "ticket_id" ∉ common_drop.
Proof. apply (bool_decide_unpack _). vm_compute. exact I. Qed.

Lemma cat_columns_not_common k :
  k ∈ cat_columns → (k ∉ common_drop) ∧ k ≠ "ticket_id".
Proof.
intros Hk.
repeat (apply elem_of_cons in Hk as [->|Hk];
        [by split; apply (bool_decide_unpack _); vm_compute|]).
by apply elem_of_nil in Hk.
Qed.

(** A run that raises nothing found every column the notebook names. *)
Lemma prepare_Ok_schema a b :
  wf a → wf b → (∃ p, prepare a b = Ok p) → schema a b.
Proof.
intros Hwfa Hwfb.
intros [p (t1 & lab & t2 & df1 & df2 & enc
           & H1 & Hlab & H2 & H3 & H4 & H5 & _)%prepare_Ok].
destruct (filtered_train _ _ _ Hwfa H1 H2) as (Hwf2 & _ & _ & _ & _ & _ & Hdom).
destruct (unified_table _ _ _ _ Hwf2 Hwfb H3 H4) as (_ & _ & _ & Hcols).
destruct (compliance_filter_Ok _ _ H1) as [Hc Ht1].
pose proof H2 as [Hdrop1 _]%drop_Ok.
pose proof H3 as [Hdrop2 ->]%drop_Ok.
apply set_index_Ok in H4 as (col & Hcol & _).
cbn [columns] in Hcol. rewrite lookup_foldr_delete in Hcol.
apply encode_Ok in H5 as (Hcat & _ & _).
split.
+ intros l [->|Hl]%elem_of_cons; [done|]. by apply Ht1, Hdrop1.
+ intros l Hl.
  assert (is_Some (columns (concat t2 b) !! l)) as Hin.
  { apply elem_of_app in Hl as [Hl|[->|Hl]%elem_of_cons].
    - by apply Hdrop2.
    - case_decide; [done|eauto].
    - specialize (Hcat l Hl). rewrite lookup_to_columns, Hcols in Hcat.
      case_decide as Hd; [by destruct Hcat|].
      apply not_eq_None_Some. intros Hn%lookup_concat_None. tauto. }
  apply is_Some_lookup_concat in Hin as [Hin|Hin]; [left|by right].
  by apply Hdom.
Qed.

(** With every named column in place the run raises nothing. *)
Lemma schema_prepare_Ok a b :
  wf a → wf b → schema a b → ∃ p, prepare a b = Ok p.
Proof.
intros Hwfa Hwfb.
intros [Ha Hab].
destruct (compliance_filter_total a) as [t1 H1];
  [apply Ha, list_elem_of_here|].
destruct (compliance_filter_Ok _ _ H1) as [_ Ht1].
assert (is_Some (columns t1 !! "compliance")) as [lab Hlab].
{ apply Ht1, Ha, list_elem_of_here. }
assert (∃ t2, drop train_drop t1 = Ok t2) as [t2 H2].
{ eexists. apply drop_Ok. split; [|done].
  intros l Hl. apply Ht1, Ha. by apply list_elem_of_further. }
destruct (filtered_train _ _ _ Hwfa H1 H2) as (Hwf2 & _ & _ & _ & _ & _ & Hdom).
assert (∀ l, l ∈ common_drop ++ "ticket_id" :: cat_columns →
             is_Some (columns (concat t2 b) !! l)) as Hc.
{ intros l Hl. apply is_Some_lookup_concat.
  destruct (Hab l Hl) as [Hx|Hx]; [left; by apply Hdom|by right]. }
assert (∃ df1, drop common_drop (concat t2 b) = Ok df1) as [df1 H3].
{ eexists. apply drop_Ok. split; [|done].
  intros l Hl. apply Hc, elem_of_app. by left. }
assert (∃ df2, set_index "ticket_id" df1 = Ok df2) as [df2 H4].
{ pose proof H3 as [_ ->]%drop_Ok.
  destruct (Hc "ticket_id") as [col Hcol].
  { apply elem_of_app. right. apply list_elem_of_here. }
  eexists. apply set_index_Ok. exists col. split; [|done].
  cbn [columns]. rewrite lookup_foldr_delete.
  destruct (decide ("ticket_id" ∈ common_drop)) as [Hin|_]; [|done].
  by destruct ticket_id_not_common. }
destruct (unified_table _ _ _ _ Hwf2 Hwfb H3 H4) as (_ & _ & _ & Hcols).
destruct (encode_total cat_columns (to_columns df2)) as [enc H5].
{ intros c Hcc. rewrite lookup_to_columns, Hcols.
  destruct (cat_columns_not_common c Hcc) as [Hnc Hnt].
  rewrite decide_False; [by eexists|].
  intros [?|[?|Hn%lookup_concat_None]]; [done|done|].
  destruct (Hc c) as [x Hx]; [|congruence].
  apply elem_of_app. right. by apply list_elem_of_further. }
unfold prepare. rewrite H1. simpl.
unfold getitem_series, getitem. rewrite Hlab. simpl.
rewrite H2. simpl. rewrite (display_uniques_total _ Hc). simpl.
rewrite H3. simpl. rewrite H4. simpl. rewrite H5. simpl. eauto.
Qed.

End prepare_total.

Example prepare_scenario_schema : schema ex_train ex_test.
Proof.
apply (prepare_Ok_schema _ _ wf_ex_train wf_ex_test).
exists ex_prepared. vm_compute. reflexivity.
Qed.

(** A failing pruner aborts the run: nothing after it is executed. *)
Lemma pruner_failure_is_fatal (a b t1 : Frame (list value)) (e : exn) :
  compliance_filter a = Ok t1 →
  drop train_drop t1 = Raise e →
  prepare a b = Raise e.
Proof.
intros H1 H2. unfold prepare. rewrite H1. simpl.
destruct (compliance_filter_Ok _ _ H1) as [Hc Ht1].
apply Ht1 in Hc as [lab Hlab].
unfold getitem_series, getitem. rewrite Hlab. simpl. by rewrite H2.
Qed.

Lemma second_pruner_failure_is_fatal (a b t1 t2 : Frame (list value)) (e : exn) :
  compliance_filter a = Ok t1 →
  drop train_drop t1 = Ok t2 →
  drop common_drop (concat t2 b) = Raise e →
  ∃ e', prepare a b = Raise e'.
Proof.
intros H1 H2 H3. unfold prepare. rewrite H1. simpl.
destruct (compliance_filter_Ok _ _ H1) as [Hc Ht1].
apply Ht1 in Hc as [lab Hlab].
unfold getitem_series, getitem. rewrite Hlab. simpl. rewrite H2. simpl.
destruct (display_uniques (concat t2 b)) as [[]|e']; simpl; [|eauto].
rewrite H3. simpl. eauto.
Qed.

(** * Further properties of the cells *)

(** ** When the preparation raises, and what *)

(** X1.  On two tables read from files, the cells up to the split raise
    nothing exactly when the training file has the outcome column and
    every column of the first drop list, and each column of the second
    drop list, the ticket number and the five columns to encode are in the
    evaluation file or, unless the first drop list removed them, in the
    training file. *)
Theorem run_succeeds_iff_columns_present (a b : Frame (list value)) :
  wf a → wf b →
  (∃ p, prepare a b = Ok p) ↔ schema a b.
Proof.
intros Hwfa Hwfb. split.
- by apply prepare_Ok_schema.
- by apply schema_prepare_Ok.
Qed.

Lemma run_succeeds_iff_columns_present_witness :
  ((∃ p, prepare ex_train ex_test = Ok p) ↔ schema ex_train ex_test)
  ∧ schema ex_train ex_test.
Proof.
pose proof (run_succeeds_iff_columns_present ex_train ex_test
              ltac:(apply (bool_decide_unpack _); vm_compute; exact I)
              ltac:(apply (bool_decide_unpack _); vm_compute; exact I)) as H.
split; [exact H|]. apply H. exists ex_prepared. vm_compute. reflexivity.
Defined.

(** X2.  A column named in both drop lists (the notebook has one,
    [grafitti_status]) is gone from the training table when the unified
    table is pruned, so a run that raises nothing had it in the evaluation
    file. *)
Theorem twice_dropped_column_comes_from_test
    (a b : Frame (list value)) (p : Prepared) (l : string) :
  wf a → wf b →
  prepare a b = Ok p →
  l ∈ train_drop → l ∈ common_drop →
  is_Some (columns a !! l) ∧ is_Some (columns b !! l).
Proof.
intros Hwfa Hwfb Hp H1 H2.
destruct (prepare_Ok_schema a b Hwfa Hwfb (ex_intro _ p Hp)) as [Ha Hab].
split.
- apply Ha. by apply list_elem_of_further.
- destruct (Hab l) as [[_ Hn]|Hb]; [|done|done].
  apply elem_of_app. by left.
Qed.

Lemma twice_dropped_column_comes_from_test_witness :
  prepare ex_train ex_test = Ok ex_prepared
  ∧ "grafitti_status" ∈ train_drop
  ∧ "grafitti_status" ∈ common_drop
  ∧ is_Some (columns ex_train !! "grafitti_status")
  ∧ is_Some (columns ex_test !! "grafitti_status").
Proof.
assert (prepare ex_train ex_test = Ok ex_prepared) as Hp
  by (vm_compute; reflexivity).
assert ("grafitti_status" ∈ train_drop) as H1
  by (apply (bool_decide_unpack _); vm_compute; exact I).
assert ("grafitti_status" ∈ common_drop) as H2
  by (apply (bool_decide_unpack _); vm_compute; exact I).
destruct (twice_dropped_column_comes_from_test ex_train ex_test ex_prepared
            "grafitti_status" wf_ex_train wf_ex_test Hp H1 H2) as [Ha Hb].
split_and!; [exact Hp|exact H1|exact H2|exact Ha|exact Hb].
Defined.

(** An evaluation file without the twice-dropped column stops the run. *)
Example test_without_grafitti_status :
  prepare ex_train
          {| index := index ex_test;
             columns := delete "grafitti_status" (columns ex_test) |}
  = Raise (KeyError "grafitti_status").
Proof. vm_compute. reflexivity. Qed.

Section prepare_errors.
Implicit Types (a b : Frame (list value)).

Lemma display_uniques_Raise a e :
  display_uniques a = Raise e →
  ∃ l, e = KeyError l
       ∧ l ∈ common_drop ++ "ticket_id" :: cat_columns
       ∧ columns a !! l = None.
Proof.
unfold display_uniques, getitem.
repeat (match goal with
        | |- context [columns a !! ?k] =>
            destruct (columns a !! k) eqn:?; simpl;
            [|intros [= <-]; exists k; split_and!;
              [done|by apply (bool_decide_unpack _); vm_compute|done]]
        end).
done.
Qed.

Lemma pruned_train_lookup_None (t1 t2 : Frame (list value)) (l : string) :
  drop train_drop t1 = Ok t2 →
  columns t2 !! l = None → columns t1 !! l = None ∨ l ∈ train_drop.
Proof.
intros [_ ->]%drop_Ok. cbn [columns]. rewrite lookup_foldr_delete.
case_decide; auto.
Qed.

End prepare_errors.

(** X3.  Whatever the two tables, the only thing the cells up to the split
    can raise is a key error for a column the notebook names: the outcome
    or a column of the first drop list that the training file lacks, or a
    column needed in the unified table that the evaluation file lacks and
    the training table does not bring.  No value or attribute error comes
    out of them. *)
Theorem run_raises_only_key_errors
    (a b : Frame (list value)) (e : exn) :
  prepare a b = Raise e →
  ∃ l, e = KeyError l
       ∧ ((l ∈ "compliance" :: train_drop ∧ columns a !! l = None)
          ∨ (l ∈ common_drop ++ "ticket_id" :: cat_columns
             ∧ (columns a !! l = None ∨ l ∈ train_drop)
             ∧ columns b !! l = None)).
Proof.
unfold prepare.
destruct (compliance_filter a) as [t1|e1] eqn:H1; cbn [mbind result_bind].
2:{ intros [= <-]. unfold compliance_filter, getitem_series, getitem in H1.
    destruct (columns a !! "compliance") eqn:Hc; simpl in H1; [done|].
    injection H1 as <-. exists "compliance". split; [done|]. left.
    split; [apply list_elem_of_here|done]. }
destruct (compliance_filter_Ok _ _ H1) as [Hc Ht1].
assert (∀ l, columns t1 !! l = None → columns a !! l = None) as Hnone.
{ intros l Hl. apply eq_None_not_Some. rewrite <-Ht1, Hl. by intros []. }
apply Ht1 in Hc as [lab Hlab].
unfold getitem_series, getitem. rewrite Hlab. cbn [mbind result_bind].
destruct (drop train_drop t1) as [t2|e2] eqn:H2; cbn [mbind result_bind].
2:{ intros [= <-]. apply drop_Raise in H2 as (l & -> & Hl & Hn).
    exists l. split; [done|]. left.
    split; [by apply list_elem_of_further|auto]. }
assert (∀ l, columns (concat t2 b) !! l = None →
             (columns a !! l = None ∨ l ∈ train_drop)
             ∧ columns b !! l = None) as Hcat.
{ intros l [Hl2 Hlb]%lookup_concat_None. split; [|done].
  destruct (pruned_train_lookup_None _ _ _ H2 Hl2); auto. }
destruct (display_uniques (concat t2 b)) as [[]|ed] eqn:Hd; cbn [mbind result_bind].
2:{ intros [= <-]. apply display_uniques_Raise in Hd as (l & -> & Hl & Hn).
    exists l. split; [done|]. right. split; [done|auto]. }
destruct (drop common_drop (concat t2 b)) as [df1|e3] eqn:H3; cbn [mbind result_bind].
2:{ intros [= <-]. apply drop_Raise in H3 as (l & -> & Hl & Hn).
    exists l. split; [done|]. right.
    split; [apply elem_of_app; by left|auto]. }
pose proof H3 as [_ Hdf1]%drop_Ok.
assert (∀ l, l ∉ common_drop → columns df1 !! l = None →
             columns (concat t2 b) !! l = None) as Hkeep.
{ intros l Hl. rewrite Hdf1. cbn [columns]. rewrite lookup_foldr_delete.
  by case_decide. }
destruct (set_index "ticket_id" df1) as [df2|e4] eqn:H4; cbn [mbind result_bind].
2:{ intros [= <-]. unfold set_index, getitem in H4.
    destruct (columns df1 !! "ticket_id") eqn:Ht; simpl in H4; [done|].
    injection H4 as <-. exists "ticket_id". split; [done|]. right.
    split; [apply elem_of_app; right; apply list_elem_of_here|].
    apply Hcat, Hkeep; [apply ticket_id_not_common|done]. }
apply set_index_Ok in H4 as (col & _ & ->).
destruct (encode cat_columns _) as [enc|e5] eqn:H5; cbn [mbind result_bind]; [done|].
intros [= <-]. apply encode_Raise in H5 as (c & -> & Hc & Hn).
rewrite lookup_to_columns in Hn. cbn [columns] in Hn.
apply fmap_None in Hn.
destruct (cat_columns_not_common c Hc) as [Hnc Hnt].
rewrite lookup_delete_ne in Hn by done.
exists c. split; [done|]. right.
split; [apply elem_of_app; right; by apply list_elem_of_further|].
by apply Hcat, Hkeep.
Qed.

Lemma run_raises_only_key_errors_witness :
  prepare ex_test ex_test = Raise (KeyError "compliance")
  ∧ ∃ l, KeyError "compliance" = KeyError l
       ∧ ((l ∈ "compliance" :: train_drop ∧ columns ex_test !! l = None)
          ∨ (l ∈ common_drop ++ "ticket_id" :: cat_columns
             ∧ (columns ex_test !! l = None ∨ l ∈ train_drop)
             ∧ columns ex_test !! l = None)).
Proof.
assert (prepare ex_test ex_test = Raise (KeyError "compliance")) as Hp
  by (vm_compute; reflexivity).
split; [exact Hp|].
exact (run_raises_only_key_errors ex_test ex_test _ Hp).
Defined.

(** ** The encoder on any frame *)

Lemma dom_encode (cols : list string) (df enc : Frame column) :
  encode cols df = Ok enc → dom (columns enc) = dom (columns df).
Proof.
intros (_ & _ & Hcols)%encode_Ok. apply set_eq. intros k.
rewrite !elem_of_dom, Hcols, fmap_is_Some. done.
Qed.

(** X4.  On any frame and for any list of labels, the encoder returns a
    frame exactly when every label is a column; when it raises, it raises
    a key error for a label that is not a column (never an attribute
    error: the second pass only reads columns the first pass made
    categorical); when it returns, the row labels, the set of columns and
    every column that was not named are as before. *)
Theorem encoder_raises_only_for_absent_column
    (cols : list string) (df : Frame column) :
  ((∀ c, c ∈ cols → is_Some (columns df !! c))
     ↔ ∃ enc, encode cols df = Ok enc)
  ∧ (∀ e, encode cols df = Raise e →
          ∃ c, e = KeyError c ∧ c ∈ cols ∧ columns df !! c = None)
  ∧ (∀ enc, encode cols df = Ok enc →
            index enc = index df
            ∧ dom (columns enc) = dom (columns df)
            ∧ ∀ k, k ∉ cols → columns enc !! k = columns df !! k).
Proof.
split_and!.
- split; [apply encode_total|]. intros [enc (Hall & _)%encode_Ok]. done.
- apply encode_Raise.
- intros enc Henc. pose proof (dom_encode _ _ _ Henc) as Hdom.
  apply encode_Ok in Henc as (_ & Hidx & Hcols). split_and!; [done|done|].
  intros k Hk. rewrite Hcols. destruct (decide (k ∈ cols)); [done|].
  by rewrite option_fmap_id.
Qed.

Lemma encoder_raises_only_for_absent_column_witness :
  (∃ enc, encode ["grade"] (to_columns ex_ABA) = Ok enc)
  ∧ ∃ c, KeyError "mark" = KeyError c ∧ c ∈ ["grade"; "mark"]
         ∧ columns (to_columns ex_ABA) !! c = None.
Proof.
split.
- apply (proj1 (encoder_raises_only_for_absent_column
                  ["grade"] (to_columns ex_ABA))).
  intros c ->%list_elem_of_singleton. eexists. vm_compute. reflexivity.
- apply (proj1 (proj2 (encoder_raises_only_for_absent_column
                         ["grade"; "mark"] (to_columns ex_ABA)))).
  vm_compute. reflexivity.
Defined.

(** ** Running the pruning and re-indexing cells again *)

Lemma missing_label_first {C} (l : string) (rest : list string) (df : Frame C) :
  columns df !! l = None → missing_label (l :: rest) df = Some l.
Proof.
intros Hl. unfold missing_label. cbn [list_find].
destruct (decide (columns df !! l = None)); [done|done].
Qed.

(** X5.  The pruning and the re-indexing work in place, so they cannot be
    run twice: after a pruning that raised nothing, none of the pruned
    labels is a column any more, before or after the re-indexing, so
    pruning again with the same labels raises a key error that names
    labels of that list which the table lacks; and re-indexing the
    re-indexed table by the same column raises a key error for it. *)
Theorem pruning_and_reindexing_cannot_rerun
    (l i : string) (rest : list string) (df df1 df2 : Frame (list value)) :
  drop (l :: rest) df = Ok df1 →
  set_index i df1 = Ok df2 →
  (∀ l', l' ∈ l :: rest →
         columns df1 !! l' = None ∧ columns df2 !! l' = None)
  ∧ (∃ l', l' ∈ l :: rest ∧ columns df1 !! l' = None
           ∧ drop (l :: rest) df1 = Raise (KeyError l'))
  ∧ (∃ l', l' ∈ l :: rest ∧ columns df2 !! l' = None
           ∧ drop (l :: rest) df2 = Raise (KeyError l'))
  ∧ set_index i df2 = Raise (KeyError i).
Proof.
intros [_ ->]%drop_Ok (col & Hcol & ->)%set_index_Ok.
assert (∀ l', l' ∈ l :: rest →
          foldr delete (columns df) (l :: rest) !! l' = None) as Hgone.
{ intros l' Hl'. rewrite lookup_foldr_delete.
  by destruct (decide (l' ∈ l :: rest)). }
assert (∀ l', l' ∈ l :: rest →
          delete i (foldr delete (columns df) (l :: rest)) !! l' = None)
  as Hgone'.
{ intros l' Hl'. rewrite lookup_delete. case_decide; [done|]. by apply Hgone. }
assert (l ∈ l :: rest) as Hl by apply list_elem_of_here.
split_and!.
- intros l' Hl'. cbn [columns]. split; [by apply Hgone|by apply Hgone'].
- exists l. split_and!; [done|by apply Hgone|].
  unfold drop. rewrite missing_label_first; [done|]. by apply Hgone.
- exists l. split_and!; [done|by apply Hgone'|].
  unfold drop. rewrite missing_label_first; [done|]. by apply Hgone'.
- unfold set_index, getitem. cbn [columns]. by rewrite lookup_delete_eq.
Qed.

Lemma pruning_and_reindexing_cannot_rerun_witness :
  drop common_drop (concat ex_pruned ex_test) = Ok ex_df1
  ∧ set_index "ticket_id" ex_df1 = Ok ex_df
  ∧ (∀ l', l' ∈ common_drop →
           columns ex_df1 !! l' = None ∧ columns ex_df !! l' = None)
  ∧ (∃ l', l' ∈ common_drop ∧ columns ex_df1 !! l' = None
           ∧ drop common_drop ex_df1 = Raise (KeyError l'))
  ∧ (∃ l', l' ∈ common_drop ∧ columns ex_df !! l' = None
           ∧ drop common_drop ex_df = Raise (KeyError l'))
  ∧ set_index "ticket_id" ex_df = Raise (KeyError "ticket_id").
Proof.
assert (drop common_drop (concat ex_pruned ex_test) = Ok ex_df1) as H3
  by (vm_compute; reflexivity).
assert (set_index "ticket_id" ex_df1 = Ok ex_df) as H4
  by (vm_compute; reflexivity).
destruct (pruning_and_reindexing_cannot_rerun
            "clean_up_cost" "ticket_id" _ _ ex_df1 ex_df H3 H4)
  as (Hn & Ha & Hb & Hc).
split_and!; [exact H3|exact H4|exact Hn|exact Ha|exact Hb|exact Hc].
Defined.

(** ** The columns of the feature tables *)

(** X6.  The two feature tables have the same columns: no ticket number,
    no column of the second drop list, and otherwise what either file
    brings.  A column of the first drop list can only be there because the
    evaluation file has it, and then its training cells are all missing:
    no cell of a leakage column of the training file reaches the
    features. *)
Theorem feature_tables_share_columns_without_leakage
    (a b : Frame (list value)) (p : Prepared) :
  wf a → wf b →
  prepare a b = Ok p →
  dom (columns (X_train p)) = dom (columns (X_test p))
  ∧ (∀ k, k ∈ dom (columns (X_train p)) ↔
          k ≠ "ticket_id" ∧ (k ∉ common_drop)
          ∧ ((is_Some (columns a !! k) ∧ k ∉ train_drop)
             ∨ is_Some (columns b !! k)))
  ∧ (∀ k vs, k ∈ train_drop →
             columns (X_train p) !! k = Some (Values vs) →
             is_Some (columns b !! k)
             ∧ vs = replicate (len (X_train p)) NaN).
Proof.
intros Hwfa Hwfb Hp.
destruct (prepare_spec _ _ _ Hwfa Hwfb Hp) as (_ & Hidx & _ & Htr & Hte & _).
assert (∀ k, k ∈ dom (columns (X_train p)) ↔ feature_label a b k) as Hdom1.
{ intros k. rewrite elem_of_dom, Htr. case_decide; [|by split; [intros []|]].
  split; [done|eauto]. }
assert (∀ k, k ∈ dom (columns (X_test p)) ↔ feature_label a b k) as Hdom2.
{ intros k. rewrite elem_of_dom, Hte. case_decide; [|by split; [intros []|]].
  split; [done|eauto]. }
split_and!.
- apply set_eq. intros k. by rewrite Hdom1, Hdom2.
- apply Hdom1.
- intros k vs Hk. rewrite Htr.
  destruct (decide (feature_label a b k)) as [(_ & _ & Hsrc)|]; [|done].
  intros [= <-]. split; [destruct Hsrc as [[_ ?]|?]; done|].
  unfold feature_code, train_part.
  destruct (decide (k ∈ cat_columns)) as [Hc|_].
  { by destruct (cat_columns_not_dropped k Hc). }
  rewrite list_fmap_id, decide_True by done.
  f_equal. unfold len. by rewrite Hidx, length_train_part.
Qed.

Lemma feature_tables_share_columns_without_leakage_witness :
  prepare ex_train ex_test = Ok ex_prepared
  ∧ dom (columns (X_train ex_prepared)) = dom (columns (X_test ex_prepared)).
Proof.
assert (prepare ex_train ex_test = Ok ex_prepared) as Hp
  by (vm_compute; reflexivity).
split; [exact Hp|].
exact (proj1 (feature_tables_share_columns_without_leakage
                ex_train ex_test ex_prepared wf_ex_train wf_ex_test Hp)).
Defined.

Example feature_columns_scenario :
  dom (columns (X_train ex_prepared))
  = list_to_set ["agency_name"; "inspector_name"; "violation_street_name";
                 "violation_code"; "disposition"; "fine_amount"].
Proof. vm_compute. reflexivity. Qed.




(** ** From the evaluation file to the answer *)

(** X8.  The evaluation rows are never filtered or reordered: when the
    model returns one pair of probabilities per row of the evaluation
    file, and the ticket numbers of that file are float-safe (none
    beyond 2^53), then, whichever casts the concatenation makes, the
    answer has one entry per row of the file, in file order, labelled
    with the ticket number the row has in the file (missing when the file
    has no ticket column), and valued with the second probability of the
    pair at the same position. *)
Theorem answer_lists_test_file_tickets {P : Type}
    (ci : bool) (casts : string → bool)
    (a b : Frame (list value)) (p : Prepared) (proba : list (P * P)) :
  wf a → wf b →
  float_safe_column b "ticket_id" →
  prepare_casting ci casts a b = Ok p →
  length proba = len b →
  ∃ ans, format_answer proba (X_test p) = Ok ans
         ∧ length ans = len b
         ∧ fst <$> ans = column_or_nan b "ticket_id"
         ∧ fst <$> ans = cell "ticket_id" <$> rows b
         ∧ snd <$> ans = snd <$> proba.
Proof.
intros Hwfa Hwfb Hsb Hp Hlen.
destruct (prepare_casting_exact _ _ _ _ _ Hwfa Hwfb Hp)
  as (p0 & Hp0 & _ & _ & Hi & _).
destruct (test_identifiers _ _ _ Hwfa Hwfb Hp0) as [Hidx0 _].
assert (index (X_test p) = cell "ticket_id" <$> rows b) as Hidx.
{ rewrite Hi, Hidx0. apply cast_if_safe. by rewrite cell_rows. }
assert (len (X_test p) = len b) as Hn.
{ unfold len at 1. by rewrite Hidx, length_fmap, length_rows. }
assert (length (snd <$> proba) = length (index (X_test p))) as Hlen'.
{ rewrite length_fmap, Hlen, <-Hn. done. }
unfold format_answer, make_series. rewrite decide_True by done.
eexists. split; [done|]. split_and!.
- rewrite length_zip, <-Hlen', length_fmap. lia.
- rewrite fst_zip by lia. by rewrite Hidx, cell_rows.
- rewrite fst_zip by lia. done.
- apply snd_zip. lia.
Qed.

Lemma answer_lists_test_file_tickets_witness :
  prepare_casting false (λ _, true) ex_train ex_test = Ok ex_prepared
  ∧ length ex_proba = len ex_test
  ∧ ∃ ans, format_answer ex_proba (X_test ex_prepared) = Ok ans
           ∧ length ans = len ex_test
           ∧ fst <$> ans = column_or_nan ex_test "ticket_id"
           ∧ fst <$> ans = cell "ticket_id" <$> rows ex_test
           ∧ snd <$> ans = snd <$> ex_proba.
Proof.
assert (prepare_casting false (λ _, true) ex_train ex_test = Ok ex_prepared)
  as Hp by (vm_compute; reflexivity).
assert (length ex_proba = len ex_test) as Hlen by (vm_compute; reflexivity).
split_and!; [exact Hp|exact Hlen|].
exact (answer_lists_test_file_tickets false (λ _, true)
         ex_train ex_test ex_prepared ex_proba
         wf_ex_train wf_ex_test
         (float_safe_column_of _ _ float_safe_ex_test) Hp Hlen).
Defined.

(** ** Tables stay rectangular *)

Lemma length_select_le {A} (mask : list bool) (l : list A) :
  length (select mask l) ≤ length l.
Proof.
revert l. induction mask as [|m mask IH]; intros [|x l]; simpl; try lia.
specialize (IH l). destruct m; simpl; lia.
Qed.

(** X9.  Each operation the notebook applies to a table read from a file
    gives a table whose columns all have one cell per row again: masking
    keeps at most the rows it had, pruning and re-indexing keep the row
    count, and concatenation adds the two row counts. *)
Theorem operations_keep_tables_rectangular (a b : Frame (list value)) :
  wf a → wf b →
  (∀ mask, wf (getitem_mask a mask) ∧ len (getitem_mask a mask) ≤ len a)
  ∧ (∀ labels a', drop labels a = Ok a' → wf a' ∧ len a' = len a)
  ∧ (wf (concat a b) ∧ len (concat a b) = len a + len b)
  ∧ (∀ label a', set_index label a = Ok a' → wf a' ∧ len a' = len a).
Proof.
intros Hwfa Hwfb. split_and!.
- intros mask. split; [by apply wf_getitem_mask|]. apply length_select_le.
- intros labels a' Hd. split; [exact (wf_drop _ _ _ Hwfa Hd)|].
  by apply drop_Ok in Hd as [_ ->].
- by apply wf_concat.
- apply len_concat.
- intros label a' Hs. exact (wf_set_index _ _ _ Hwfa Hs).
Qed.

Lemma operations_keep_tables_rectangular_witness :
  wf (concat ex_pruned ex_test)
  ∧ len (concat ex_pruned ex_test) = len ex_pruned + len ex_test.
Proof.
exact (proj1 (proj2 (proj2
         (operations_keep_tables_rectangular ex_pruned ex_test
            ltac:(apply (bool_decide_unpack _); vm_compute; exact I)
            ltac:(apply (bool_decide_unpack _); vm_compute; exact I))))).
Defined.

(** ** Concatenation *)

(** X10.  The concatenation has the columns of either table, and a table
    with no row and no column is neutral on both sides: concatenating it
    to a table read from a file gives that table back. *)
Theorem concat_unites_columns_with_neutral_empty_table
    (a b : Frame (list value)) :
  wf a →
  dom (columns (concat a b)) = dom (columns a) ∪ dom (columns b)
  ∧ concat a {| index := []; columns := ∅ |} = a
  ∧ concat {| index := []; columns := ∅ |} a = a.
Proof.
intros Hwf. split_and!.
- apply set_eq. intros k.
  rewrite elem_of_union, !elem_of_dom. apply is_Some_lookup_concat.
- apply frame_eq; [apply app_nil_r|]. intros k.
  rewrite lookup_concat. cbn [columns]. rewrite lookup_empty.
  destruct (columns a !! k); simpl; [|done]. by rewrite app_nil_r.
- apply frame_eq; [done|]. intros k.
  rewrite lookup_concat. cbn [columns]. rewrite lookup_empty.
  destruct (columns a !! k); simpl; done.
Qed.

Lemma concat_unites_columns_with_neutral_empty_table_witness :
  dom (columns (concat ex_pruned ex_test))
  = dom (columns ex_pruned) ∪ dom (columns ex_test)
  ∧ concat ex_pruned {| index := []; columns := ∅ |} = ex_pruned
  ∧ concat {| index := []; columns := ∅ |} ex_pruned = ex_pruned.
Proof.
exact (concat_unites_columns_with_neutral_empty_table ex_pruned ex_test
         ltac:(apply (bool_decide_unpack _); vm_compute; exact I)).
Defined.

(** ** Splitting at any position *)

(** X11.  Slicing never raises and loses nothing, wherever the cut is: the
    first slice has the first [n] rows (all of them when [n] is beyond the
    end), the second the remaining ones (none then), and for a frame of
    plain columns stacking the two slices gives the frame back. *)
Theorem split_at_any_position_is_lossless (n : nat) (df : Frame column) :
  (∀ k x, columns df !! k = Some x → ∃ vs, x = Values vs) →
  len (iloc 0 (Some n) df) = n `min` len df
  ∧ len (iloc n None df) = len df - n
  ∧ len (iloc 0 (Some n) df) + len (iloc n None df) = len df
  ∧ to_columns (concat (to_values (iloc 0 (Some n) df))
                       (to_values (iloc n None df))) = df.
Proof.
intros Hplain.
assert (len (iloc 0 (Some n) df) = n `min` len df) as H1.
{ unfold len, iloc, slice. cbn [index].
  by rewrite Nat.sub_0_r, drop_0, length_take. }
pose proof (len_iloc_tail n df) as H2.
split_and!; [done|done|lia|by apply restack_iloc].
Qed.

Lemma split_at_any_position_is_lossless_witness :
  len (iloc 0 (Some 7) (to_columns ex_test)) = 7 `min` len (to_columns ex_test)
  ∧ len (iloc 7 None (to_columns ex_test)) = len (to_columns ex_test) - 7
  ∧ len (iloc 0 (Some 7) (to_columns ex_test))
    + len (iloc 7 None (to_columns ex_test)) = len (to_columns ex_test)
  ∧ to_columns (concat (to_values (iloc 0 (Some 7) (to_columns ex_test)))
                       (to_values (iloc 7 None (to_columns ex_test))))
    = to_columns ex_test.
Proof.
apply (split_at_any_position_is_lossless 7 (to_columns ex_test)).
intros k x. rewrite lookup_to_columns.
destruct (columns ex_test !! k) as [vs|]; simpl; [|done].
intros [= <-]. by exists vs.
Defined.

(** ** Filtering again *)

Lemma select_all_true {A} (mask : list bool) (l : list A) :
  Forall (λ m, m = true) mask → length l ≤ length mask → select mask l = l.
Proof.
revert l. induction mask as [|m mask IH]; intros [|x l]; simpl; try done.
- lia.
- intros [-> Hall]%Forall_cons Hlen. f_equal. apply IH; [done|lia].
Qed.

Lemma forall_filter_true {A} (f : A → bool) (l : list A) :
  Forall (λ m, m = true) (f <$> filter (λ x, f x = true) l).
Proof.
apply Forall_fmap, Forall_forall. by intros x [? _]%list_elem_of_filter.
Qed.

(** X12.  Filtering is idempotent: a table that came out of the outcome
    filter goes through it unchanged. *)
Theorem compliance_filter_idempotent (train out : Frame (list value)) :
  wf train →
  compliance_filter train = Ok out →
  compliance_filter out = Ok out.
Proof.
intros Hwf Hout.
destruct (compliance_filter_rows _ _ Hwf Hout) as [Hwf' Hrows].
destruct (compliance_filter_Ok _ _ Hout) as [Hc Hsome].
apply Hsome in Hc as [vs Hvs].
unfold compliance_filter, getitem_series, getitem. rewrite Hvs. simpl.
f_equal. rewrite (compliance_mask out vs) by done.
assert (Forall (λ m, m = true) (outcome_defined <$> rows out)) as Hall.
{ rewrite Hrows. apply forall_filter_true. }
apply frame_eq.
- unfold getitem_mask. cbn [index]. apply select_all_true; [done|].
  by rewrite length_fmap, length_rows.
- intros k. unfold getitem_mask. cbn [columns]. rewrite lookup_fmap.
  destruct (columns out !! k) as [col|] eqn:Hk; simpl; [|done].
  f_equal. apply select_all_true; [done|].
  by rewrite length_fmap, length_rows, (wf_lookup _ _ _ Hwf' Hk).
Qed.

Lemma compliance_filter_idempotent_witness :
  ∃ out, compliance_filter ex_train = Ok out ∧ compliance_filter out = Ok out.
Proof.
eexists. split; [vm_compute; reflexivity|].
apply (compliance_filter_idempotent ex_train).
- apply (bool_decide_unpack _). vm_compute. exact I.
- vm_compute. reflexivity.
Defined.

(** ** Distinct values before and after encoding *)

Section unique_facts.
Implicit Types (v : value) (vs seen : list value).

Lemma unique_aux_spec seen vs :
  NoDup seen →
  let r := foldl (λ seen v, if decide (v ∈ seen) then seen else seen ++ [v])
                 seen vs in
  NoDup r ∧ ∀ v, v ∈ r ↔ v ∈ seen ∨ v ∈ vs.
Proof.
revert seen. induction vs as [|x vs IH]; intros seen Hnd; simpl.
- split; [done|]. intros v. rewrite elem_of_nil. tauto.
- destruct (decide (x ∈ seen)) as [Hin|Hin].
  + destruct (IH seen Hnd) as [H1 H2]. split; [done|].
    intros v. rewrite H2, elem_of_cons. naive_solver.
  + assert (NoDup (seen ++ [x])) as Hnd'.
    { apply NoDup_app. split_and!; [done| |apply NoDup_singleton].
      intros y Hy ->%list_elem_of_singleton. done. }
    destruct (IH _ Hnd') as [H1 H2]. split; [done|].
    intros v. rewrite H2, elem_of_app, list_elem_of_singleton, elem_of_cons.
    tauto.
Qed.

Lemma NoDup_unique vs : NoDup (unique vs).
Proof. apply (unique_aux_spec [] vs). constructor. Qed.

Lemma elem_of_unique vs v : v ∈ unique vs ↔ v ∈ vs.
Proof.
destruct (unique_aux_spec [] vs (NoDup_nil_2)) as [_ H].
unfold unique. rewrite H, elem_of_nil. tauto.
Qed.

(** A function that tells the cells of a column apart commutes with
    [unique]. *)
Lemma unique_aux_fmap (f : value → value) seen vs :
  (∀ x y, x ∈ seen ++ vs → y ∈ seen ++ vs → f x = f y → x = y) →
  foldl (λ seen v, if decide (v ∈ seen) then seen else seen ++ [v])
        (f <$> seen) (f <$> vs)
  = f <$> foldl (λ seen v, if decide (v ∈ seen) then seen else seen ++ [v])
                seen vs.
Proof.
revert seen. induction vs as [|x vs IH]; intros seen Hinj; [done|].
cbn [fmap list_fmap foldl].
assert (f x ∈ f <$> seen ↔ x ∈ seen) as Hiff.
{ rewrite list_elem_of_fmap. split; [|by exists x].
  intros (y & Hxy & Hy). rewrite (Hinj x y); [done| | |done].
  - apply elem_of_app. right. apply list_elem_of_here.
  - apply elem_of_app. by left. }
destruct (decide (x ∈ seen)) as [Hin|Hin].
- rewrite decide_True by (by apply Hiff). apply IH.
  intros y z Hy Hz. apply Hinj; rewrite elem_of_app, elem_of_cons;
    apply elem_of_app in Hy, Hz; tauto.
- rewrite decide_False by (by rewrite Hiff).
  rewrite <-(IH (seen ++ [x])); [by rewrite fmap_app|].
  intros y z Hy Hz. apply Hinj; rewrite elem_of_app, elem_of_cons;
    rewrite !elem_of_app, list_elem_of_singleton in Hy, Hz; tauto.
Qed.

Lemma unique_fmap (f : value → value) vs :
  (∀ x y, x ∈ vs → y ∈ vs → f x = f y → x = y) →
  unique (f <$> vs) = f <$> unique vs.
Proof. intros Hinj. by apply (unique_aux_fmap f [] vs). Qed.

(** [unique] counts a missing cell, the categories do not. *)
Lemma length_unique vs :
  length (unique vs)
  = length (categories (factorize vs)) + (if decide (NaN ∈ vs) then 1 else 0).
Proof.
rewrite categories_factorize, merge_sort_Permutation.
destruct (decide (NaN ∈ vs)) as [Hnan|Hnan].
- rewrite Nat.add_1_r.
  change (S (length (uniques vs))) with (length (NaN :: uniques vs)).
  apply Permutation_length, NoDup_Permutation; [apply NoDup_unique| |].
  + apply NoDup_cons. split; [|apply NoDup_uniques].
    by intros [_ ?]%elem_of_uniques.
  + intros v. rewrite elem_of_unique, elem_of_cons, elem_of_uniques.
    destruct v; naive_solver.
- rewrite Nat.add_0_r.
  apply Permutation_length, NoDup_Permutation;
    [apply NoDup_unique|apply NoDup_uniques|].
  intros v. rewrite elem_of_unique, elem_of_uniques.
  destruct v; naive_solver.
Qed.

Lemma unique_count_Ok (df : Frame (list value)) k n :
  unique_count df k = Ok n ↔
  ∃ vs, columns df !! k = Some vs ∧ n = length (unique vs).
Proof.
unfold unique_count, getitem.
destruct (columns df !! k) as [vs|]; simpl; naive_solver.
Qed.

(** The tuple of the second cell is there exactly when the cell raises
    nothing. *)
Lemma unique_counts_display (df : Frame (list value)) :
  (∃ t, unique_counts df = Ok t) ↔ display_uniques df = Ok ().
Proof.
unfold unique_counts, unique_count, display_uniques, getitem.
repeat (match goal with
        | |- context [columns df !! ?k] =>
            destruct (columns df !! k); simpl;
            [|split; [by intros [? ?]|done]]
        end).
split; eauto.
Qed.

End unique_facts.

(** X13.  For a column to encode, the number of distinct values the second
    cell displays (a missing cell counts as one value) is the number of
    distinct codes the column has after encoding, that is the number of
    categories, plus one when the column has a missing cell; and the codes
    first appear in the rows where the values first appear. *)
Theorem unique_count_is_number_of_codes
    (df0 df1 df : Frame (list value)) (enc : Frame column)
    (k : string) (n : nat) :
  k ∈ cat_columns →
  unique_count df0 k = Ok n →
  drop common_drop df0 = Ok df1 →
  set_index "ticket_id" df1 = Ok df →
  encode cat_columns (to_columns df) = Ok enc →
  ∃ vs zs,
    columns df0 !! k = Some vs
    ∧ columns enc !! k = Some (Values (Int <$> zs))
    ∧ unique (Int <$> zs)
      = (λ v, Int (code_of (categories (factorize vs)) v)) <$> unique vs
    ∧ length (unique (Int <$> zs)) = n
    ∧ n = length (categories (factorize vs))
          + (if decide (NaN ∈ vs) then 1 else 0).
Proof.
intros Hk (vs & Hvs & ->)%unique_count_Ok [_ ->]%drop_Ok
       (col & _ & ->)%set_index_Ok Henc.
destruct (cat_columns_not_common k Hk) as [Hnc Hnt].
exists vs, (codes (factorize vs)).
assert (unique (Int <$> codes (factorize vs))
        = (λ v, Int (code_of (categories (factorize vs)) v)) <$> unique vs)
  as Huniq.
{ rewrite codes_factorize, <-list_fmap_compose. apply unique_fmap.
  intros x y Hx Hy Heq%Int_inj. by apply (code_of_inj vs). }
split_and!; [done| |done| |apply length_unique].
- rewrite (encode_to_columns_lookup _ _ _ _ Henc). cbn [columns].
  rewrite lookup_delete_ne, lookup_foldr_delete by done.
  destruct (decide (k ∈ common_drop)); [done|]. rewrite Hvs. simpl.
  by rewrite decide_True.
- by rewrite Huniq, length_fmap.
Qed.

Lemma unique_count_is_number_of_codes_witness :
  unique_count (concat ex_pruned ex_test) "agency_name" = Ok 4
  ∧ drop common_drop (concat ex_pruned ex_test) = Ok ex_df1
  ∧ set_index "ticket_id" ex_df1 = Ok ex_df
  ∧ encode cat_columns (to_columns ex_df) = Ok ex_enc
  ∧ ∃ vs zs,
      columns (concat ex_pruned ex_test) !! "agency_name" = Some vs
      ∧ columns ex_enc !! "agency_name" = Some (Values (Int <$> zs))
      ∧ unique (Int <$> zs)
        = (λ v, Int (code_of (categories (factorize vs)) v)) <$> unique vs
      ∧ length (unique (Int <$> zs)) = 4
      ∧ 4 = length (categories (factorize vs))
            + (if decide (NaN ∈ vs) then 1 else 0).
Proof.
assert (unique_count (concat ex_pruned ex_test) "agency_name" = Ok 4) as H0
  by (vm_compute; reflexivity).
assert (drop common_drop (concat ex_pruned ex_test) = Ok ex_df1) as H3
  by (vm_compute; reflexivity).
assert (set_index "ticket_id" ex_df1 = Ok ex_df) as H4
  by (vm_compute; reflexivity).
assert (encode cat_columns (to_columns ex_df) = Ok ex_enc) as H5
  by (vm_compute; reflexivity).
split_and!; [exact H0|exact H3|exact H4|exact H5|].
exact (unique_count_is_number_of_codes _ _ _ _ "agency_name" 4
         ltac:(apply list_elem_of_here) H0 H3 H4 H5).
Defined.

(** ** Encoding again *)

Section reencode_facts.
Implicit Types (v : value) (vs : list value) (z : Z).

Lemma StronglySorted_lookup_2 {A} (R : relation A) (l : list A) :
  (∀ i j x y, l !! i = Some x → l !! j = Some y → i < j → R x y) →
  StronglySorted R l.
Proof.
induction l as [|a l IH]; intros H; constructor.
- apply IH. intros i j x y Hi Hj Hij. apply (H (S i) (S j)); [done|done|lia].
- apply Forall_forall. intros y [j Hj]%list_elem_of_lookup.
  apply (H 0 (S j)); [done|done|lia].
Qed.

Lemma Int_le (z z' : Z) : (z ≤ z')%Z → value_le (Int z) (Int z').
Proof.
intros Hz. unfold value_le, Int. cbn [value_leb].
apply bool_decide_eq_true. exact (proj1 (Z2Qc_inj_le z z') Hz).
Qed.

(** The codes of a column are the integers from [0], or from [-1] when
    the column has a missing cell, up to the number of categories. *)
Lemma elem_of_codes vs z :
  z ∈ codes (factorize vs) ↔
  ((if decide (NaN ∈ vs) then -1 else 0) ≤ z
   < Z.of_nat (length (categories (factorize vs))))%Z.
Proof.
rewrite codes_factorize, list_elem_of_fmap. split.
- intros (v & -> & Hv). destruct (isnull v) eqn:Nv.
  + rewrite (code_of_missing vs v Nv). apply isnull_true in Nv as ->.
    rewrite decide_True by done. lia.
  + pose proof (code_of_range vs v Hv Nv). case_decide; lia.
- intros Hz. destruct (decide (z = -1)%Z) as [->|Hne].
  + destruct (decide (NaN ∈ vs)) as [Hnan|]; [|lia]. by exists NaN.
  + assert (0 ≤ z < Z.of_nat (length (categories (factorize vs))))%Z as Hz'
      by (case_decide; lia).
    destruct (code_decode vs z Hz') as (Hc & Hin & _).
    by exists (decode (factorize vs) z).
Qed.

(** The categories of a column of codes: the codes in increasing order. *)
Lemma categories_of_codes vs :
  let lo := (if decide (NaN ∈ vs) then -1 else 0)%Z in
  categories (factorize (Int <$> codes (factorize vs)))
  = Int <$> seqZ lo (Z.of_nat (length (categories (factorize vs))) - lo).
Proof.
intros lo. apply (StronglySorted_unique value_le).
- apply categories_sorted.
- apply StronglySorted_lookup_2. intros i j x y.
  rewrite !list_lookup_fmap, !fmap_Some.
  intros (zi & [-> _]%lookup_seqZ & ->) (zj & [-> _]%lookup_seqZ & ->) Hij.
  apply Int_le. lia.
- apply NoDup_Permutation; [apply NoDup_categories| |].
  + apply NoDup_fmap_2_strong; [|apply NoDup_seqZ].
    intros x y _ _. apply Int_inj.
  + intros v. rewrite elem_of_categories, !list_elem_of_fmap. split.
    * intros [(z & -> & Hz%elem_of_codes) _]. exists z. split; [done|].
      apply elem_of_seqZ. fold lo in Hz. lia.
    * intros (z & -> & Hz%elem_of_seqZ). split; [|done]. exists z.
      split; [done|]. apply elem_of_codes. fold lo. lia.
Qed.

(** Encoding a column of codes: nothing changes when the column had no
    missing cell; otherwise the sentinel becomes the first category and
    every code moves up by one. *)
Lemma codes_of_codes vs :
  codes (factorize (Int <$> codes (factorize vs)))
  = (λ z, if decide (NaN ∈ vs) then z + 1 else z)%Z <$> codes (factorize vs).
Proof.
rewrite (codes_factorize (Int <$> _)), <-list_fmap_compose.
apply list_fmap_ext. intros i z Hz%list_elem_of_lookup_2. unfold compose.
pose proof (proj1 (elem_of_codes vs z) Hz) as Hrange.
rewrite categories_of_codes. unfold code_of. cbn [isnull Int].
set (lo := (if decide (NaN ∈ vs) then -1 else 0)%Z) in *.
rewrite (index_of_lookup _ _ (Z.to_nat (z - lo))).
- subst lo. case_decide; lia.
- apply NoDup_fmap_2_strong; [|apply NoDup_seqZ].
  intros x y _ _. apply Int_inj.
- rewrite list_lookup_fmap, lookup_seqZ_lt by lia. simpl.
  do 2 f_equal. lia.
Qed.

End reencode_facts.

(** X14.  Running the encoding cell a second time raises nothing and
    leaves the row labels and the columns that are not named alone.  A
    named column without a missing cell keeps its codes; in a named
    column with a missing cell the sentinel -1 is taken for a value, so
    every code comes out one higher and the missing cells get the code
    0. *)
Theorem encoding_again_shifts_codes_of_columns_with_missing_cells
    (cols : list string) (df : Frame (list value)) (enc : Frame column) :
  encode cols (to_columns df) = Ok enc →
  ∃ enc2,
    encode cols enc = Ok enc2
    ∧ index enc2 = index enc
    ∧ (∀ k, k ∉ cols → columns enc2 !! k = columns enc !! k)
    ∧ (∀ k vs, k ∈ cols → columns df !! k = Some vs →
         columns enc !! k = Some (Values (Int <$> codes (factorize vs)))
         ∧ columns enc2 !! k
           = Some (Values (Int <$> ((λ z, if decide (NaN ∈ vs) then z + 1
                                          else z)%Z
                                    <$> codes (factorize vs)))))
    ∧ ((∀ k vs, k ∈ cols → columns df !! k = Some vs → NaN ∉ vs) →
       enc2 = enc).
Proof.
intros Henc.
pose proof Henc as (Hall & Hidx & _)%encode_Ok.
assert (∀ k, columns enc !! k
             = (λ vs, Values (if decide (k ∈ cols)
                              then Int <$> codes (factorize vs) else vs))
               <$> columns df !! k) as Hcols.
{ intros k. by rewrite (encode_to_columns_lookup _ _ _ _ Henc). }
destruct (encode_total cols enc) as [enc2 Henc2].
{ intros c Hc. destruct (Hall c Hc) as [x Hx].
  rewrite lookup_to_columns in Hx. rewrite Hcols.
  destruct (columns df !! c); [by eexists|done]. }
exists enc2. pose proof Henc2 as (_ & Hidx2 & Hcols2)%encode_Ok.
assert (∀ k vs, k ∈ cols → columns df !! k = Some vs →
          columns enc2 !! k
          = Some (Values (Int <$> ((λ z, if decide (NaN ∈ vs) then z + 1
                                         else z)%Z
                                   <$> codes (factorize vs))))) as Hre.
{ intros k vs Hk Hvs. rewrite Hcols2, Hcols, Hvs.
  cbn [fmap option_fmap option_map]. rewrite !decide_True by done.
  unfold encoded. cbn [astype_category]. by rewrite <-codes_of_codes. }
split_and!; [done|done| | |].
- intros k Hk. rewrite Hcols2, decide_False by done.
  by rewrite option_fmap_id.
- intros k vs Hk Hvs. split; [|by apply Hre].
  rewrite Hcols, Hvs. simpl. by rewrite decide_True.
- intros Hnan. apply frame_eq; [done|]. intros k.
  destruct (decide (k ∈ cols)) as [Hk|Hk].
  + destruct (columns df !! k) as [vs|] eqn:Hvs.
    * rewrite (Hre k vs Hk Hvs), Hcols, Hvs. simpl.
      rewrite decide_True by done. do 3 f_equal.
      etrans; [|apply list_fmap_id]. apply list_fmap_ext. intros i z _.
      simpl. destruct (decide (NaN ∈ vs)) as [Hin|]; [|done].
      by destruct (Hnan k vs Hk Hvs).
    * rewrite Hcols2, Hcols, Hvs. done.
  + rewrite Hcols2, decide_False by done. by rewrite option_fmap_id.
Qed.

Lemma encoding_again_shifts_codes_of_columns_with_missing_cells_witness :
  encode cat_columns (to_columns ex_df) = Ok ex_enc
  ∧ ∃ enc2,
      encode cat_columns ex_enc = Ok enc2
      ∧ columns ex_enc !! "agency_name"
        = Some (Values (Int <$> [1; 0; -1; 1; 0; 2; -1]%Z))
      ∧ columns enc2 !! "agency_name"
        = Some (Values (Int <$> [2; 1; 0; 2; 1; 3; 0]%Z))
      ∧ columns enc2 !! "disposition" = columns ex_enc !! "disposition".
Proof.
assert (encode cat_columns (to_columns ex_df) = Ok ex_enc) as H5
  by (vm_compute; reflexivity).
split; [exact H5|].
destruct (encoding_again_shifts_codes_of_columns_with_missing_cells
            cat_columns ex_df ex_enc H5) as (enc2 & H2 & _ & _ & Hk & _).
exists enc2. split; [exact H2|].
destruct (Hk "agency_name" [Str "B"; Str "A"; NaN; Str "B";
                            Str "A"; Str "D"; NaN]
            ltac:(apply list_elem_of_here)
            ltac:(vm_compute; reflexivity)) as [Ha Hb].
destruct (Hk "disposition" _
            ltac:(apply (bool_decide_unpack _); vm_compute; exact I)
            ltac:(vm_compute; reflexivity)) as [Hc Hd].
split_and!.
- rewrite Ha. vm_compute. reflexivity.
- rewrite Hb. vm_compute. reflexivity.
- rewrite Hd, Hc. vm_compute. reflexivity.
Defined.

(** ** Training codes depend on the evaluation file *)

Section code_growth.
Implicit Types (v : value) (vs ws : list value).

(** In the categories of a column, what stands before a value is what is
    below it. *)
Lemma elem_of_take_categories vs (i : nat) v x :
  categories (factorize vs) !! i = Some v →
  x ∈ take i (categories (factorize vs))
  ↔ x ∈ categories (factorize vs) ∧ value_lt x v.
Proof.
intros Hi. split.
- intros [k Hk]%list_elem_of_lookup.
  apply lookup_take_Some in Hk as [Hk Hlt]. split.
  + by eapply list_elem_of_lookup_2.
  + by eapply categories_increasing.
- intros [[k Hk]%list_elem_of_lookup [Hle Hne]].
  apply list_elem_of_lookup. exists k. apply lookup_take_Some. split; [done|].
  destruct (decide (k < i)) as [|Hge]; [done|].
  destruct (decide (k = i)) as [->|Hki]; [congruence|].
  assert (i < k) as Hik by lia.
  destruct (categories_increasing vs i k v x Hi Hk Hik) as [Hle' _].
  destruct Hne. by apply (anti_symm value_le).
Qed.

(** More rows can only add categories below a value, never remove any. *)
Lemma code_of_app_ge vs ws v :
  v ∈ vs → isnull v = false →
  (code_of (categories (factorize vs)) v
   ≤ code_of (categories (factorize (vs ++ ws))) v)%Z.
Proof.
intros Hin Hv.
destruct (code_of_present vs v Hin Hv) as (i & -> & Hi).
destruct (code_of_present (vs ++ ws) v) as (j & -> & Hj);
  [apply elem_of_app; by left|done|].
apply inj_le.
rewrite <-(length_take_le (categories (factorize vs)) i)
  by (apply lookup_lt_Some in Hi; lia).
rewrite <-(length_take_le (categories (factorize (vs ++ ws))) j)
  by (apply lookup_lt_Some in Hj; lia).
apply submseteq_length, NoDup_submseteq.
- eapply sublist_NoDup; [apply NoDup_categories|apply sublist_take].
- intros x [Hx Hlt]%(elem_of_take_categories vs i v x Hi).
  apply (elem_of_take_categories (vs ++ ws) j v x Hj). split; [|done].
  apply elem_of_categories in Hx as [Hx Hnn].
  apply elem_of_categories. split; [|done]. apply elem_of_app. by left.
Qed.

End code_growth.

(** Codes with and without the evaluation rows, in the run without
    casts. *)
Lemma training_codes_exact
    (a b : Frame (list value)) (p : Prepared) (k : string) (v : value) :
  wf a → wf b →
  prepare a b = Ok p →
  k ∈ cat_columns →
  v ∈ cell k <$> kept_rows a →
  isnull v = false →
  (0 ≤ code_of (categories (factorize (cell k <$> kept_rows a))) v
   ≤ code_of (vocabulary a b k) v)%Z
  ∧ columns (X_train p) !! k
    = Some (Values ((λ v, Int (code_of (vocabulary a b k) v))
                    <$> (cell k <$> kept_rows a))).
Proof.
intros Hwfa Hwfb Hp Hk Hin Hv.
destruct (prepare_spec _ _ _ Hwfa Hwfb Hp) as (_ & _ & _ & Htr & _ & Hlab).
pose proof (train_part_kept a k (cat_columns_not_dropped k Hk)) as Hpart.
split.
- split; [by apply code_of_range|].
  unfold vocabulary. rewrite Hpart. by apply code_of_app_ge.
- rewrite Htr, decide_True, Hpart by auto. unfold feature_code.
  by destruct (decide (k ∈ cat_columns)).
Qed.

(** X15.  The code of a training cell depends on the evaluation file: in
    a column that is float-safe in both files (no whole number beyond
    2^53), whichever casts the
    concatenation makes, the code a value gets from the shared vocabulary
    is never below the code it would get if the kept training rows were
    encoded alone, since the evaluation rows can only bring further
    values in below it. *)
Theorem evaluation_rows_push_training_codes_up
    (ci : bool) (casts : string → bool)
    (a b : Frame (list value)) (p : Prepared) (k : string) (v : value) :
  wf a → wf b →
  float_safe_column a k → float_safe_column b k →
  prepare_casting ci casts a b = Ok p →
  k ∈ cat_columns →
  v ∈ cell k <$> kept_rows a →
  isnull v = false →
  (0 ≤ code_of (categories (factorize (cell k <$> kept_rows a))) v
   ≤ code_of (vocabulary a b k) v)%Z
  ∧ columns (X_train p) !! k
    = Some (Values ((λ v, Int (code_of (vocabulary a b k) v))
                    <$> (cell k <$> kept_rows a))).
Proof.
intros Hwfa Hwfb Hsa Hsb Hp Hk Hin Hv.
destruct (prepare_casting_exact _ _ _ _ _ Hwfa Hwfb Hp)
  as (p0 & Hp0 & _ & _ & _ & _ & _ & Hcol).
destruct (Hcol k Hsa Hsb) as [-> _].
exact (training_codes_exact a b p0 k v Hwfa Hwfb Hp0 Hk Hin Hv).
Qed.

Lemma evaluation_rows_push_training_codes_up_witness :
  prepare_casting false (λ _, true) ex_train ex_test = Ok ex_prepared
  ∧ (0 ≤ code_of (categories (factorize
                    (cell "inspector_name" <$> kept_rows ex_train)))
               (Str "Sims")
     ≤ code_of (vocabulary ex_train ex_test "inspector_name") (Str "Sims"))%Z.
Proof.
assert (prepare_casting false (λ _, true) ex_train ex_test = Ok ex_prepared)
  as Hp by (vm_compute; reflexivity).
split; [exact Hp|].
apply (evaluation_rows_push_training_codes_up false (λ _, true)
         ex_train ex_test ex_prepared "inspector_name" (Str "Sims")
         wf_ex_train wf_ex_test
         (float_safe_column_of _ _ float_safe_ex_train)
         (float_safe_column_of _ _ float_safe_ex_test) Hp).
- apply (bool_decide_unpack _). vm_compute. exact I.
- apply (bool_decide_unpack _). vm_compute. exact I.
- reflexivity.
Defined.

(** The scenario: among the violation codes the evaluation file brings
    "22-2-88" in below "61-63.0500", whose code goes from 1 to 2. *)
Example training_codes_scenario :
  code_of (categories (factorize
             (cell "violation_code" <$> kept_rows ex_train)))
          (Str "61-63.0500") = 1%Z
  ∧ code_of (vocabulary ex_train ex_test "violation_code")
            (Str "61-63.0500") = 2%Z.
Proof. split; vm_compute; reflexivity. Qed.
